(** * redis-nextra: the shard router and the protocol transport

    A shallow embedding of [ServerManager] (command submission, hash-tag
    extraction, offline queue drain) and of [Connection] (wire encoding,
    reply correlation, reconnect state machine), with the properties the
    specification states about them. *)

From Stdlib Require Import List NArith ZArith Bool String Ascii Lia DecimalString.
From stdpp Require Import gmap.
Import ListNotations.

Local Open Scope N_scope.

(** * JavaScript strings

    A JavaScript string is a sequence of UTF-16 code units: [length],
    [charAt] and [substring] count code units.  Writing a string on a socket,
    and [Buffer.byteLength], go through the UTF-8 encoding. *)

Module Js.

Abbreviation code_unit := N (only parsing).
Abbreviation byte := N (only parsing).
Abbreviation jsstring := (list N) (only parsing).

(** A string literal of the source, all of whose characters are ASCII. *)
Definition lit (s : string) : jsstring :=
  map N_of_ascii (list_ascii_of_string s).

(** [s.charAt(i)]; [None] stands for the empty string returned out of range. *)
Definition charAt (s : jsstring) (i : nat) : option code_unit := nth_error s i.

(** [s.substring(a, b)]: both indices are clamped to the length, and swapped
    when [a > b]. *)
Definition substring (a b : nat) (s : jsstring) : jsstring :=
  let lo := Nat.min a b in
  let hi := Nat.max a b in
  firstn (hi - lo) (skipn lo s).

(** Number to string, for the non-negative integers the templates print. *)
Definition dec (n : nat) : jsstring := lit (NilZero.string_of_uint (Nat.to_uint n)).

(** ** UTF-8 *)

Definition is_high (c : code_unit) : bool := (0xD800 <=? c) && (c <=? 0xDBFF).
Definition is_low (c : code_unit) : bool := (0xDC00 <=? c) && (c <=? 0xDFFF).

Definition utf8_cp (cp : N) : list byte :=
  if cp <? 0x80 then [cp]
  else if cp <? 0x800 then
    [N.lor 0xC0 (N.shiftr cp 6); N.lor 0x80 (N.land cp 0x3F)]
  else if cp <? 0x10000 then
    [N.lor 0xE0 (N.shiftr cp 12);
     N.lor 0x80 (N.land (N.shiftr cp 6) 0x3F);
     N.lor 0x80 (N.land cp 0x3F)]
  else
    [N.lor 0xF0 (N.shiftr cp 18);
     N.lor 0x80 (N.land (N.shiftr cp 12) 0x3F);
     N.lor 0x80 (N.land (N.shiftr cp 6) 0x3F);
     N.lor 0x80 (N.land cp 0x3F)].

(** The replacement character U+FFFD, written in place of a lone surrogate. *)
Definition replacement : list byte := utf8_cp 0xFFFD.

Definition pair_cp (hi lo : code_unit) : N :=
  0x10000 + N.shiftl (hi - 0xD800) 10 + (lo - 0xDC00).

(** The bytes [stream.write(s)] puts on the wire (default encoding). *)
Fixpoint utf8 (s : jsstring) : list byte :=
  match s with
  | [] => []
  | c :: t =>
      if is_high c then
        match t with
        | d :: t' =>
            if is_low d then utf8_cp (pair_cp c d) ++ utf8 t'
            else replacement ++ utf8 t
        | [] => replacement
        end
      else if is_low c then replacement ++ utf8 t
      else utf8_cp c ++ utf8 t
  end.

(** [Buffer.byteLength(s)] *)
Definition byteLength (s : jsstring) : nat := length (utf8 s).

(** ASCII text: every code unit is below 128. *)
Definition ascii_only (s : jsstring) : bool := forallb (fun c => c <? 0x80) s.

Definition crlf : jsstring := [13; 10].

(** ** Values

    The values a caller passes as command arguments.  [VHandle p] is the
    [{ resolve, reject }] object of promise [p].  Of the numbers, the model
    holds the integers a number represents exactly, which [String] prints in
    decimal: those of magnitude below 2^53. *)

Record safe_integer := SafeInteger {
  safe_value : Z;
  safe_bound : (Z.abs safe_value <? 2 ^ 53)%Z = true
}.

#[warnings="-register-all"]
Inductive value :=
| VUndefined
| VNull
| VBool (b : bool)
| VNum (n : safe_integer)
| VStr (s : jsstring)
| VArr (l : list value)
| VHandle (p : nat).

Definition dec_Z (z : Z) : jsstring :=
  match z with
  | Z0 => lit "0"
  | Zpos p => dec (Pos.to_nat p)
  | Zneg p => lit "-" ++ dec (Pos.to_nat p)
  end.

(** [Array.prototype.join] with the default separator. *)
Fixpoint join (parts : list jsstring) : jsstring :=
  match parts with
  | [] => []
  | [p] => p
  | p :: rest => p ++ lit "," ++ join rest
  end.

(** [String(v)] *)
Fixpoint String_ (v : value) : jsstring :=
  match v with
  | VUndefined => lit "undefined"
  | VNull => lit "null"
  | VBool true => lit "true"
  | VBool false => lit "false"
  | VNum n => dec_Z (safe_value n)
  | VStr s => s
  | VArr l =>
      join (map (fun e => match e with
                          | VUndefined | VNull => []
                          | _ => String_ e
                          end) l)
  | VHandle _ => lit "[object Object]"
  end.

(** How a call ends: it returns, or an exception leaves it: a [TypeError],
    or what [emit('error', ...)] throws on an emitter without a listener for
    ['error']. *)
Inductive outcome := Returned | Threw_TypeError | Threw_UnhandledError.

End Js.

Import Js.

(** The [Host] records produced by [connection-parse]. *)
Record Host := mkHost {
  host_host : jsstring;
  host_port : option N;
  host_string : jsstring;
  host_weight : N
}.

(** * The consistent-hash ring

    The ring comes from the [consistent] package.  Its [members] is an
    object keyed by member key; the router reads it and uses [add],
    [replace] and [getCached]. *)

Record member := Member { member_key : jsstring; member_weight : N }.

Class RingOps := {
  ring : Type;
  ring_new : ring;
  ring_members : ring -> gmap jsstring member;
  ring_add : member -> ring -> ring;
  ring_replace : jsstring -> member -> ring -> ring;
  ring_getCached : ring -> jsstring -> option jsstring
}.

(** A ring that looks every key up to its only member, when it has one. *)
Definition single_member_law (R : RingOps) : Prop :=
  forall (r : ring) (m : member) (k : jsstring),
    ring_members r = {[ member_key m := m ]} ->
    ring_getCached r k = Some (member_key m).

(** * ServerManager *)

Module ServerManager.

(** ** serverNameForKey *)

(** The loop [for (k = i; k < i + n; k++) if (key.charAt(k) === c)]: the
    first index at which it stops. *)
Fixpoint scan (c : code_unit) (key : jsstring) (i n : nat) : option nat :=
  match n with
  | O => None
  | S n' =>
      match charAt key i with
      | Some d => if d =? c then Some i else scan c key (S i) n'
      | None => scan c key (S i) n'
      end
  end.

Definition lbrace : code_unit := 123.
Definition rbrace : code_unit := 125.

(** The value of [key] when the loops are left, which is handed to
    [ring.getCached]. *)
Definition hashKey (key : jsstring) : jsstring :=
  match scan lbrace key 0 (length key) with
  | Some i =>
      match scan rbrace key (i + 1) (length key - (i + 1)) with
      | Some j => substring (i + 1) j key
      | None => key
      end
  | None => key
  end.

(** ** The command table and the offline queue *)

(** A descriptor of [commands]: [supported] may be missing, [router] names a
    custom dispatch function, [key] is the index of the key argument. *)
Record descriptor := Descriptor {
  supported : option bool;
  router : option nat;
  key : option nat
}.

Record entry := Entry {
  entry_cmd : jsstring;
  entry_args : list value;
  entry_handler : nat
}.

(** Modelled from the spec: the [OfflineQueue] class ([./OfflineQueue] is
    required by the router and not part of the sources at hand).
    [push(cmd, args, handle)] appends an entry, [drain()] hands out the
    entries in order, once, and [flush(reason)] rejects every queued entry
    with that reason. *)
Definition OfflineQueue := list entry.

Definition push (q : OfflineQueue) (cmd : jsstring) (args : list value) (p : nat)
  : OfflineQueue := q ++ [Entry cmd args p].

Definition drain (q : OfflineQueue) : list entry * OfflineQueue := (q, []).

(** What [...entry] spreads into a call.  The entry is either an array
    [[cmd, args, handler]] or an object [{ cmd, args, handler }] as read by
    [setup]; an object is not iterable, and spreading it throws. *)
Inductive entry_shape := ArrayEntry | ObjectEntry.

Definition spread (shape : entry_shape) (e : entry) : option (list value) :=
  match shape with
  | ArrayEntry => Some [VStr (entry_cmd e); VArr (entry_args e); VHandle (entry_handler e)]
  | ObjectEntry => None
  end.

(** ** Effects

    [ServersEnd names] stands for the calls of [server.end()] on the servers
    registered under [names]; the registry is a map here, and the order of
    these calls is not kept. *)

Inductive reason :=
| Error (message : jsstring)
| TypeError.

Inductive effect :=
| Reject (p : nat) (e : reason)
| RouterCall (cmd : jsstring) (args : list value) (p : nat)
| ServerSendCommand (name : jsstring) (cmd : jsstring) (args : list value) (p : nat)
| ServerNew (h : Host)
| ServersEnd (names : gset jsstring)
| ClientEmitEnd.

(** The promise whose [{ resolve, reject }] an effect holds, as the handle
    to settle. *)
Definition effect_handle (e : effect) : option nat :=
  match e with
  | Reject p _ | RouterCall _ _ p | ServerSendCommand _ _ _ p => Some p
  | ServerNew _ | ServersEnd _ | ClientEmitEnd => None
  end.

Section Router.
Context `{RingOps}.
Variable commands : jsstring -> option descriptor.
Variable shape : entry_shape.

Record ServerManager := mkServerManager {
  hosts : list Host;
  replacementHosts : list Host;
  ring_ : option ring;
  ended : bool;
  offlineQueue : option OfflineQueue;
  servers : gmap jsstring Host;   (* [client.servers]; a server stands for its host *)
  promises : nat                  (* promises created so far *)
}.

Definition serverNameForKey (r : ring) (k : value) : option jsstring :=
  ring_getCached r (hashKey (String_ k)).

(** [client.servers[name]]: an undefined name reads the property
    ["undefined"]. *)
Definition property (name : option jsstring) : jsstring :=
  match name with
  | Some n => n
  | None => lit "undefined"
  end.

Definition sendToServer (mgr : ServerManager) (name : option jsstring)
    (cmd : jsstring) (args : list value) (next : nat) : list effect :=
  match servers mgr !! property name with
  | None => [Reject next (Error (lit "Unable to acquire any server connections."))]
  | Some _ => [ServerSendCommand (property name) cmd args next]
  end.

Definition is_supported (d : descriptor) : bool :=
  match supported d with
  | Some false => false
  | _ => true
  end.

Definition set_promises (n : nat) (mgr : ServerManager) : ServerManager :=
  mkServerManager (hosts mgr) (replacementHosts mgr) (ring_ mgr) (ended mgr)
    (offlineQueue mgr) (servers mgr) n.

Definition set_offlineQueue (q : option OfflineQueue) (mgr : ServerManager) : ServerManager :=
  mkServerManager (hosts mgr) (replacementHosts mgr) (ring_ mgr) (ended mgr)
    q (servers mgr) (promises mgr).

Definition set_ended (b : bool) (mgr : ServerManager) : ServerManager :=
  mkServerManager (hosts mgr) (replacementHosts mgr) (ring_ mgr) b
    (offlineQueue mgr) (servers mgr) (promises mgr).

Definition not_supported (cmd : jsstring) : reason :=
  Error (lit "Command not supported: " ++ cmd).

(** [this.ring.members.length === 1].  [members] is an object keyed by
    member key: its property [length] is the member of that name, or
    undefined, and neither is the number 1. *)
Definition members_length_is_1 (r : ring) : bool :=
  match ring_members r !! lit "length" with
  | Some _ => false
  | None => false
  end.

(** The body of the promise executor, after the rest arguments have been
    unwrapped; an exception thrown in an executor rejects the promise. *)
Definition dispatch (mgr : ServerManager) (cmd : jsstring) (args : list value)
    (p : nat) : list effect :=
  match commands cmd with
  | Some command =>
      if is_supported command then
        match router command with
        | Some _ => [RouterCall cmd args p]
        | None =>
            match ring_ mgr with
            | None => [Reject p TypeError]
            | Some r =>
                if members_length_is_1 r then
                  match ring_members r !! lit "0" with
                  | Some m => sendToServer mgr (serverNameForKey r (VStr (member_key m))) cmd args p
                  | None => [Reject p TypeError]
                  end
                else
                  match key command with
                  | Some k => sendToServer mgr (serverNameForKey r (nth k args VUndefined)) cmd args p
                  | None => [Reject p (not_supported cmd)]
                  end
            end
        end
      else [Reject p (not_supported cmd)]
  | None => [Reject p (not_supported cmd)]
  end.

(** [if (args.length === 1 && Array.isArray(args[0])) [args] = args] *)
Definition unwrap (args : list value) : list value :=
  match args with
  | [VArr a] => a
  | _ => args
  end.

(** [sendCommand(cmd, ...args)]: the new state, the promise returned and
    what the call did. *)
Definition sendCommand (mgr : ServerManager) (cmd : jsstring) (args : list value)
  : ServerManager * nat * list effect :=
  let p := promises mgr in
  let mgr := set_promises (S p) mgr in
  if ended mgr then (mgr, p, [Reject p (Error (lit "Client has been ended."))])
  else
    match offlineQueue mgr with
    | Some q => (set_offlineQueue (Some (push q cmd args p)) mgr, p, [])
    | None => (mgr, p, dispatch mgr cmd (unwrap args) p)
    end.

(** [addServer(host, replacementOf)] on the ring and the server registry. *)
Definition default_port (h : Host) : Host :=
  match host_port h with
  | None | Some 0 => mkHost (host_host h) (Some 6379) (host_string h) (host_weight h)
  | Some _ => h
  end.

Definition addServer (r : ring) (srv : gmap jsstring Host) (h : Host)
    (replacementOf : option Host) : ring * gmap jsstring Host * list effect :=
  let h := default_port h in
  let srv := <[host_string h := h]> srv in
  let m := Member (host_string h) (host_weight h) in
  match replacementOf with
  | Some old => (ring_replace (host_string old) m r, srv, [ServerNew h])
  | None => (ring_add m r, srv, [ServerNew h])
  end.

Fixpoint addServers (r : ring) (srv : gmap jsstring Host) (hs : list Host)
  : ring * gmap jsstring Host * list effect :=
  match hs with
  | [] => (r, srv, [])
  | h :: rest =>
      let '(r, srv, e1) := addServer r srv h None in
      let '(r, srv, e2) := addServers r srv rest in
      (r, srv, e1 ++ e2)
  end.

(** [for (const entry of offlineCommands) this.sendCommand(...entry)] *)
Fixpoint resubmit (mgr : ServerManager) (es : list entry)
  : ServerManager * list effect * outcome :=
  match es with
  | [] => (mgr, [], Returned)
  | e :: rest =>
      match spread shape e with
      | None => (mgr, [], Threw_TypeError)
      | Some vs =>
          let '(mgr, _, e1) := sendCommand mgr (String_ (hd VUndefined vs)) (tl vs) in
          let '(mgr, e2, o) := resubmit mgr rest in
          (mgr, e1 ++ e2, o)
      end
  end.

(** [connect(hostconfig)], with the host lists already parsed. *)
Definition connect (mgr : ServerManager) (new_hosts new_replacements : list Host)
  : ServerManager * list effect * outcome :=
  let hs := hosts mgr ++ new_hosts in
  let '(r, srv, e1) := addServers ring_new (servers mgr) hs in
  let mgr := mkServerManager (map default_port hs)
               (replacementHosts mgr ++ new_replacements)
               (Some r) (ended mgr) (offlineQueue mgr) srv (promises mgr) in
  match offlineQueue mgr with
  | Some q =>
      let '(offlineCommands, _) := drain q in
      let '(mgr, e2, o) := resubmit (set_offlineQueue None mgr) offlineCommands in
      (mgr, e1 ++ e2, o)
  | None => (mgr, e1, Returned)
  end.

(** [end()] *)
Definition end_ (mgr : ServerManager) : ServerManager * list effect :=
  let e1 := [ServersEnd (dom (servers mgr))] in
  let e2 := match offlineQueue mgr with
            | Some q => map (fun e => Reject (entry_handler e) (Error (lit "Client ended"))) q
            | None => []
            end in
  (set_ended true (set_offlineQueue None mgr), e1 ++ e2 ++ [ClientEmitEnd]).

(** The fields as the constructor sets them before it connects: with a
    discovery function ([discovery = true]) the offline queue exists until
    the callback calls [connect]. *)
Definition init (discovery : bool) : ServerManager :=
  mkServerManager [] [] None false (if discovery then Some [] else None) ∅ 0.

(** The submissions of [setup(password)]: [AUTH] when a password is given,
    then [KEYS RDN_*].  (Its listeners are not part of this model.) *)
Definition setup (mgr : ServerManager) (password : option jsstring)
  : ServerManager * list effect :=
  let '(mgr, e1) :=
    match password with
    | None | Some [] => (mgr, [])
    | Some pw =>
        let '(mgr, _, e) := sendCommand mgr (lit "AUTH") [VStr pw] in (mgr, e)
    end in
  let '(mgr, _, e2) := sendCommand mgr (lit "KEYS") [VStr (lit "RDN_*")] in
  (mgr, e1 ++ e2).

(** [new ServerManager(client, hosts, options)] with a discovery function
    whose callback has not run yet. *)
Definition discovering (password : option jsstring) : ServerManager * list effect :=
  setup (init true) password.

End Router.

End ServerManager.

(** * The reply decoder

    [hiredis.Reader]: [feed] appends bytes, [get] hands out one complete
    reply, or [undefined] when none is complete yet, or throws on bytes that
    are not a reply. *)

#[warnings="-register-all"]
Inductive reply :=
| RNull
| RInt (z : Z)
| RStr (s : jsstring)
| RErr (message : jsstring)       (* an [Error] object *)
| RArr (l : list reply).

Inductive get_result :=
| GetUndefined
| GetReply (r : reply)
| GetThrow (message : jsstring).

Class ReaderOps := {
  reader : Type;
  reader_new : reader;
  reader_feed : reader -> list byte -> reader;
  reader_get : reader -> get_result * reader
}.

(** * Connection *)

Module Connection.

(** A pending handler: a [{ resolve, reject }] object, or a bare function. *)
Inductive handler :=
| HObject (id : nat)
| HFunction (id : nat).

Definition is_object (h : handler) : bool :=
  match h with
  | HObject _ => true
  | HFunction _ => false
  end.

(** An element of [pack]: a [Buffer], or any other value. *)
Inductive item :=
| IBuffer (b : list byte)
| IValue (v : value).

Inductive chunk :=
| WString (s : jsstring)
| WBuffer (b : list byte).

Inductive event :=
| EvConnect
| EvEnd
| EvReconnect
| EvDebug (reason : jsstring)
| EvError (message : jsstring).

Inductive effect :=
| NetCreateConnection (port : option N) (host : jsstring)
| StreamSetNoDelay
| StreamSetKeepAlive (b : bool)
| StreamSetTimeout (ms : N)
| StreamWrite (c : chunk)
| StreamEnd
| StreamDestroy
| StreamConnect (port : option N) (host : jsstring)
| Emit (ev : event)
| ClientEmitError (message : jsstring)
| HandlerResolve (id : nat) (response : reply)
| HandlerReject (id : nat) (message : jsstring)
| HandlerCall (id : nat) (err : option jsstring) (response : option reply)
| SetTimeout (ms : N)
| ClearTimeout.

Record ServerConnectionOptions := mkOptions {
  opt_retryDelay : option N;
  opt_socketNoDelay : option bool;
  opt_socketKeepAlive : option bool
}.

(** ** write: the wire encoding *)

Definition nonempty (s : jsstring) : bool :=
  match s with
  | [] => false
  | _ => true
  end.

Definition flush (command : jsstring) : list effect :=
  if nonempty command then [StreamWrite (WString command)] else [].

(** The text appended to [command] for an argument that is not a buffer. *)
Definition text_frame (s : jsstring) : jsstring :=
  lit "$" ++ dec (byteLength s) ++ crlf ++ s ++ crlf.

Definition header (cmd : jsstring) (argc : nat) : jsstring :=
  lit "*" ++ dec (argc + 1) ++ crlf ++ lit "$" ++ dec (length cmd) ++ crlf ++ cmd ++ crlf.

(** The [for] loop of [write] followed by the last flush, from the value of
    [command] and the elements left. *)
Fixpoint write_loop (pack : list item) (command : jsstring) : list effect :=
  match pack with
  | [] => flush command
  | IBuffer b :: rest =>
      flush command
      ++ [StreamWrite (WString (lit "$" ++ dec (length b) ++ crlf));
          StreamWrite (WBuffer b);
          StreamWrite (WString crlf)]
      ++ write_loop rest []
  | IValue v :: rest => write_loop rest (command ++ text_frame (String_ v))
  end.

(** The bytes a list of effects puts on the socket. *)
Definition chunk_bytes (c : chunk) : list byte :=
  match c with
  | WString s => utf8 s
  | WBuffer b => b
  end.

Fixpoint wire (es : list effect) : list byte :=
  match es with
  | [] => []
  | StreamWrite c :: rest => chunk_bytes c ++ wire rest
  | _ :: rest => wire rest
  end.

(** What the loop of [_connectionLost] does with one handler before it
    goes on, or throws. *)
Definition notify (message : jsstring) (h : handler) : effect :=
  match h with
  | HObject o => HandlerReject o message
  | HFunction f => HandlerCall f (Some message) None
  end.

(** The handlers up to the first function, that function included. *)
Fixpoint upto_function (hs : list handler) : list handler :=
  match hs with
  | [] => []
  | HObject o :: rest => HObject o :: upto_function rest
  | HFunction f :: _ => [HFunction f]
  end.

(** Who was told what: the handlers an effect list notifies of an error,
    in order. *)
Fixpoint notifications (es : list effect) : list (handler * jsstring) :=
  match es with
  | [] => []
  | HandlerReject o m :: rest => (HObject o, m) :: notifications rest
  | HandlerCall f (Some m) _ :: rest => (HFunction f, m) :: notifications rest
  | _ :: rest => notifications rest
  end.

(** How many timers an effect list arms. *)
Fixpoint timers_armed (es : list effect) : nat :=
  match es with
  | [] => O
  | SetTimeout _ :: rest => S (timers_armed rest)
  | _ :: rest => timers_armed rest
  end.

(** A length-prefixed bulk: the byte count, the bytes. *)
Definition bulk (payload : list byte) : list byte :=
  utf8 (lit "$" ++ dec (length payload) ++ crlf) ++ payload ++ utf8 crlf.

Definition arg_bytes (a : item) : list byte :=
  match a with
  | IBuffer b => b
  | IValue v => utf8 (String_ v)
  end.

(** The bytes of a command as the code lays them out: the array header,
    the command name announced with [cmd.length], its count of UTF-16 code
    units, then one bulk per argument. *)
Definition frame (cmd : jsstring) (pack : list item) : list byte :=
  utf8 (lit "*" ++ dec (length pack + 1) ++ crlf)
  ++ utf8 (lit "$" ++ dec (length cmd) ++ crlf) ++ utf8 cmd ++ utf8 crlf
  ++ flat_map (fun a => bulk (arg_bytes a)) pack.

(** The frame as the specification words it: the array header, then the
    command name and every argument as a length-prefixed bulk of its bytes. *)
Definition resp_frame (cmd : jsstring) (pack : list item) : list byte :=
  utf8 (lit "*" ++ dec (length pack + 1) ++ crlf)
  ++ bulk (utf8 cmd)
  ++ flat_map (fun a => bulk (arg_bytes a)) pack.

Section Transport.
Context `{ReaderOps}.

(** A connection is an [EventEmitter], and so is the client it reports to:
    [emit('error', ...)] throws on an emitter that has no listener for
    ['error'].  The record counts these listeners, of the connection itself
    and of [this.client]. *)
Record Connection := mkConnection {
  host : Host;
  retryDelay : N;
  connected : bool;
  ended : bool;
  reconnecting : bool;
  handlers : list handler;
  reader_ : reader;
  retryTimer : bool;         (* a reconnect timer is armed *)
  errorListeners : nat;
  clientErrorListeners : nat
}.

Definition set_flags (c e r : bool) (s : Connection) : Connection :=
  mkConnection (host s) (retryDelay s) c e r (handlers s) (reader_ s) (retryTimer s)
    (errorListeners s) (clientErrorListeners s).

Definition set_handlers (hs : list handler) (s : Connection) : Connection :=
  mkConnection (host s) (retryDelay s) (connected s) (ended s) (reconnecting s)
    hs (reader_ s) (retryTimer s) (errorListeners s) (clientErrorListeners s).

Definition set_reader (rd : reader) (s : Connection) : Connection :=
  mkConnection (host s) (retryDelay s) (connected s) (ended s) (reconnecting s)
    (handlers s) rd (retryTimer s) (errorListeners s) (clientErrorListeners s).

Definition set_retryTimer (b : bool) (s : Connection) : Connection :=
  mkConnection (host s) (retryDelay s) (connected s) (ended s) (reconnecting s)
    (handlers s) (reader_ s) b (errorListeners s) (clientErrorListeners s).

Definition set_errorListeners (n : nat) (s : Connection) : Connection :=
  mkConnection (host s) (retryDelay s) (connected s) (ended s) (reconnecting s)
    (handlers s) (reader_ s) (retryTimer s) n (clientErrorListeners s).

Definition set_clientErrorListeners (n : nat) (s : Connection) : Connection :=
  mkConnection (host s) (retryDelay s) (connected s) (ended s) (reconnecting s)
    (handlers s) (reader_ s) (retryTimer s) (errorListeners s) n.

(** The constructor, for a client that has [client_listeners] listeners for
    ['error']; the connection itself starts with none. *)
Definition new (client_listeners : nat) (h : Host) (options : ServerConnectionOptions)
  : Connection * list effect :=
  let delay := match opt_retryDelay options with
               | None | Some 0 => 2000
               | Some d => d
               end in
  let noDelay := match opt_socketNoDelay options with
                 | None => true
                 | Some b => b
                 end in
  let keepAlive := match opt_socketKeepAlive options with
                   | None => true
                   | Some b => b
                   end in
  (mkConnection h delay false false false [] reader_new false 0 client_listeners,
   [NetCreateConnection (host_port h) (host_host h)]
   ++ (if noDelay then [StreamSetNoDelay] else [])
   ++ [StreamSetKeepAlive keepAlive; StreamSetTimeout 0]).

Definition write (s : Connection) (cmd : jsstring) (pack : list item) (h : handler)
  : Connection * list effect :=
  (set_handlers (handlers s ++ [h]) s, write_loop pack (header cmd (length pack))).

Definition end_ (s : Connection) : Connection * list effect :=
  if ended s then (s, [])
  else (set_retryTimer false (set_flags false true (reconnecting s) s),
        [StreamEnd; Emit EvEnd; ClearTimeout]).

Definition lost_message (s : Connection) : jsstring :=
  lit "Server connection lost to " ++ host_string (host s).

(** The [for] loop of [_connectionLost].  On a function [handler.reject] is
    undefined: calling it throws, after the function itself was called. *)
Fixpoint reject_all (message : jsstring) (hs : list handler) : list effect * outcome :=
  match hs with
  | [] => ([], Returned)
  | HObject o :: rest =>
      let '(es, out) := reject_all message rest in
      (HandlerReject o message :: es, out)
  | HFunction f :: _ => ([HandlerCall f (Some message) None], Threw_TypeError)
  end.

Definition _connectionLost (s : Connection) (reason : jsstring)
  : Connection * list effect * outcome :=
  if ended s || reconnecting s then (s, [], Returned)
  else
    let s := set_flags false (ended s) true s in
    match reject_all (lost_message s) (handlers s) with
    | (es, Returned) =>
        (set_retryTimer true (set_handlers [] s),
         es ++ [Emit EvReconnect; Emit (EvDebug reason); SetTimeout (retryDelay s)],
         Returned)
    | (es, thrown) => (s, es, thrown)
    end.

(** The listeners of [_attachEvents].  Where one emits ['error'], the
    listeners of that event are called, or the emit throws when there is
    none and the listener stops there. *)
Definition on_connect (s : Connection) : Connection * list effect :=
  (set_reader reader_new (set_flags true (ended s) (reconnecting s) s), [Emit EvConnect]).

Definition on_close (s : Connection) := _connectionLost s (lit "close").
Definition on_end (s : Connection) := _connectionLost s (lit "end").

Definition on_error (s : Connection) (msg : jsstring)
  : Connection * list effect * outcome :=
  match clientErrorListeners s with
  | O => (s, [], Threw_UnhandledError)
  | S _ =>
      let '(s', es, out) := _connectionLost s (lit "error") in
      (s', ClientEmitError (lit "redis-nextra connection to " ++ host_string (host s)
                             ++ lit " failed: " ++ msg) :: es, out)
  end.

Definition on_data (s : Connection) (data : list byte)
  : Connection * list effect * outcome :=
  let '(got, rd) := reader_get (reader_feed (reader_ s) data) in
  let s := set_reader rd s in
  match got with
  | GetThrow message =>
      match errorListeners s with
      | O => (s, [], Threw_UnhandledError)
      | S _ =>
          (s, [Emit (EvError (lit "Parser error: " ++ message)); StreamDestroy],
           Returned)
      end
  | GetUndefined => (s, [], Returned)
  | GetReply response =>
      match handlers s with
      | [] => (s, [], Threw_TypeError)
      | h :: rest =>
          let s := set_handlers rest s in
          match response, h with
          | RErr message, HObject o => (s, [HandlerReject o message], Returned)
          | RErr _, HFunction _ => (s, [], Threw_TypeError)
          | _, HFunction f => (s, [HandlerCall f None (Some response)], Returned)
          | _, HObject o => (s, [HandlerResolve o response], Returned)
          end
      end
  end.

(** The callback of the reconnect timer; it runs only while armed. *)
Definition on_timer (s : Connection) : Connection * list effect :=
  if retryTimer s then
    (set_retryTimer false (set_flags (connected s) (ended s) false s),
     [StreamConnect (host_port (host s)) (host_host (host s))])
  else (s, []).

(** What the [data] listener does with a reply for a [{ resolve, reject }]
    handler. *)
Definition settle (o : nat) (response : reply) : effect :=
  match response with
  | RErr message => HandlerReject o message
  | _ => HandlerResolve o response
  end.

(** Every chunk completes one reply: fed in turn, the chunks make [get]
    answer with the replies [rs], one per chunk. *)
Fixpoint one_reply_each (rd : reader) (chunks : list (list byte)) (rs : list reply)
  : Prop :=
  match chunks, rs with
  | [], [] => True
  | d :: chunks', r :: rs' =>
      exists rd', reader_get (reader_feed rd d) = (GetReply r, rd')
                  /\ one_reply_each rd' chunks' rs'
  | _, _ => False
  end.

(** A run of [data] events. *)
Fixpoint feed_all (s : Connection) (chunks : list (list byte))
  : Connection * list effect * outcome :=
  match chunks with
  | [] => (s, [], Returned)
  | d :: rest =>
      match on_data s d with
      | (s', es, Returned) =>
          let '(s'', es', out) := feed_all s' rest in
          (s'', es ++ es', out)
      | r => r
      end
  end.

End Transport.

End Connection.

(** * Instances for concrete runs *)

(** A ring that places a key by the sum of its code units.  The package
    hashes with murmurhash; the runs below do not depend on the hash. *)
Module SumRing.

Definition key_sum (k : jsstring) : nat := N.to_nat (fold_right N.add 0 k).

Definition getCached (r : list member) (k : jsstring) : option jsstring :=
  match r with
  | [] => None
  | _ => option_map member_key (nth_error r (key_sum k mod length r))
  end.

Definition replace (old : jsstring) (m : member) (r : list member) : list member :=
  map (fun x => if decide (member_key x = old) then m else x) r.

#[export] Instance ops : RingOps := {
  ring := list member;
  ring_new := [];
  ring_members := fun r => list_to_map (map (fun m => (member_key m, m)) r);
  ring_add := fun m r => r ++ [m];
  ring_replace := replace;
  ring_getCached := getCached
}.

End SumRing.

(** A RESP decoder over a byte buffer, for the reply types [+], [-], [:],
    [$] and [*]; payload bytes are read as code units, which is exact for
    ASCII payloads. *)
Module Resp.

Inductive parsed :=
| Incomplete
| Failed (message : jsstring)
| Done (r : reply) (rest : list byte).

(** The bytes before the first CRLF, and the bytes after it. *)
Fixpoint split_line (buf : list byte) : option (list byte * list byte) :=
  match buf with
  | [] => None
  | b :: rest =>
      match rest with
      | c :: rest' =>
          if (b =? 13) && (c =? 10) then Some ([], rest')
          else option_map (fun '(l, r) => (b :: l, r)) (split_line rest)
      | [] => None
      end
  end.

Fixpoint digits (acc : N) (l : list byte) : option N :=
  match l with
  | [] => Some acc
  | d :: rest =>
      if (48 <=? d) && (d <=? 57) then digits (10 * acc + (d - 48)) rest else None
  end.

Definition integer (l : list byte) : option Z :=
  match l with
  | [] => None
  | 45 :: (_ :: _) as ds => option_map (fun n => Z.opp (Z.of_N n)) (digits 0 ds)
  | ds => option_map Z.of_N (digits 0 ds)
  end.

Definition bad_type (b : byte) : jsstring :=
  lit "Protocol error, got " ++ [34; b; 34] ++ lit " as reply type byte".

Definition bad_integer : jsstring := lit "Protocol error, bad integer".

Fixpoint parse (fuel : nat) (buf : list byte) : parsed :=
  match fuel with
  | O => Incomplete
  | S fuel' =>
      match buf with
      | [] => Incomplete
      | t :: body =>
          if negb (existsb (N.eqb t) [43; 45; 58; 36; 42]) then Failed (bad_type t)
          else
            match split_line body with
            | None => Incomplete
            | Some (line, rest) =>
                if t =? 43 then Done (RStr line) rest
                else if t =? 45 then Done (RErr line) rest
                else
                  match integer line with
                  | None => Failed bad_integer
                  | Some z =>
                      if t =? 58 then Done (RInt z) rest
                      else if (z <? 0)%Z then Done RNull rest
                      else if t =? 36 then
                        let n := Z.to_nat z in
                        if (length rest <? n + 2)%nat then Incomplete
                        else Done (RStr (firstn n rest)) (skipn (n + 2) rest)
                      else
                        (fix elements (n : nat) (buf : list byte) (acc : list reply) : parsed :=
                           match n with
                           | O => Done (RArr (rev acc)) buf
                           | S n' =>
                               match parse fuel' buf with
                               | Done r rest' => elements n' rest' (r :: acc)
                               | other => other
                               end
                           end) (Z.to_nat z) rest []
                  end
            end
      end
  end.

Definition get (buf : list byte) : get_result * list byte :=
  match parse (S (length buf)) buf with
  | Incomplete => (GetUndefined, buf)
  | Failed message => (GetThrow message, buf)
  | Done r rest => (GetReply r, rest)
  end.

#[export] Instance ops : ReaderOps := {
  reader := list byte;
  reader_new := [];
  reader_feed := fun buf data => buf ++ data;
  reader_get := get
}.

End Resp.

(** Hosts and a command table for the runs below: [GET] is keyed by its
    first argument, [INFO] and [KEYS] have custom routers, [EVAL] is switched
    off. *)
Module Sample.

Definition hostA : Host := mkHost (lit "10.0.0.1") (Some 6379) (lit "10.0.0.1:6379") 1.

Definition commands (cmd : jsstring) : option ServerManager.descriptor :=
  if decide (cmd = lit "GET") then
    Some (ServerManager.Descriptor (Some true) None (Some 0%nat))
  else if decide (cmd = lit "INFO") then
    Some (ServerManager.Descriptor None (Some 0%nat) None)
  else if decide (cmd = lit "KEYS") then
    Some (ServerManager.Descriptor None (Some 1%nat) None)
  else if decide (cmd = lit "EVAL") then
    Some (ServerManager.Descriptor (Some false) None (Some 2%nat))
  else None.

Definition options : Connection.ServerConnectionOptions :=
  Connection.mkOptions None None None.

(** A connection as constructed for a client that listens for ['error'],
    the same once the socket connected, and with two commands written and no
    reply read.  Nothing listens for ['error'] on the connection itself. *)
Definition fresh : @Connection.Connection Resp.ops :=
  fst (Connection.new 1 hostA options).

Definition up : @Connection.Connection Resp.ops :=
  fst (Connection.on_connect fresh).

Definition get_a : @Connection.Connection Resp.ops :=
  fst (Connection.write up (lit "GET") [Connection.IValue (VStr (lit "a"))]
         (Connection.HObject 1)).

Definition get_a_b : @Connection.Connection Resp.ops :=
  fst (Connection.write get_a (lit "GET") [Connection.IValue (VStr (lit "b"))]
         (Connection.HObject 2)).

(** Three commands written, the second with a callback for a handler. *)
Definition with_callback : @Connection.Connection Resp.ops :=
  let s1 := fst (Connection.write up (lit "GET") [Connection.IValue (VStr (lit "a"))]
                   (Connection.HObject 1)) in
  let s2 := fst (Connection.write s1 (lit "GET") [Connection.IValue (VStr (lit "b"))]
                   (Connection.HFunction 2)) in
  fst (Connection.write s2 (lit "GET") [Connection.IValue (VStr (lit "c"))]
         (Connection.HObject 3)).

(** A router with one server, after four submissions. *)
Definition one_server : ServerManager.ServerManager :=
  @ServerManager.mkServerManager SumRing.ops [hostA] []
    (Some [Member (lit "10.0.0.1:6379") 1])
    false None (<[lit "10.0.0.1:6379" := hostA]> ∅) 4.

End Sample.

(** * The membership listeners of [setup], and runs of submissions *)

Module Membership.
Import ServerManager.

(** [ring.remove], the one operation of the ring the listeners add. *)
Class RingRemove (R : RingOps) := {
  ring_remove : jsstring -> ring -> ring
}.

(** What a listener does: an effect of the router, an error on the client
    (the code and message given to [makeError]), or the [ready] event. *)
Inductive signal :=
| Did (e : effect)
| ClientError (code message : jsstring)
| ClientReady.

(** A [Server] as the listeners read it: its host and its own offline
    queue, if it has one. *)
Record Server := mkServer {
  server_host : Host;
  server_offlineQueue : option OfflineQueue
}.

(** The counter [connected] of [setup], whether [connectCounter] still
    listens, and [client.ready]. *)
Record Setup := mkSetup {
  connected : nat;
  counting : bool;
  ready : bool
}.

Definition setup_start : Setup := mkSetup 0 true false.

Definition no_connections : signal :=
  ClientError (lit "NO_CONNECTIONS") (lit "No server connections available.").

Section Listeners.
Context {R : RingOps} {RR : RingRemove R}.
Variable commands : jsstring -> option descriptor.

(** The listener of [serverConnect]; the [once('ready')] listener runs
    inside the [emit('ready')] and removes it. *)
Definition connectCounter (mgr : ServerManager) (st : Setup) (server : Server)
  : Setup * list signal :=
  if counting st then
    let name := host_string (server_host server) in
    let drained :=
      match server_offlineQueue server with
      | Some q =>
          map (fun e => Did (ServerSendCommand name (entry_cmd e) (entry_args e)
                               (entry_handler e)))
              (fst (drain q))
      | None => []
      end in
    let n := S (connected st) in
    if (n =? length (hosts mgr))%nat
    then (mkSetup n false true, drained ++ [ClientReady])
    else (mkSetup n true (ready st), drained)
  else (st, []).

(** A run of [serverConnect] events. *)
Fixpoint serverConnects (mgr : ServerManager) (st : Setup) (servers : list Server)
  : Setup * list signal :=
  match servers with
  | [] => (st, [])
  | server :: rest =>
      let '(st, e1) := connectCounter mgr st server in
      let '(st, e2) := serverConnects mgr st rest in
      (st, e1 ++ e2)
  end.

Fixpoint ready_count (es : list signal) : nat :=
  match es with
  | [] => O
  | ClientReady :: rest => S (ready_count rest)
  | _ :: rest => ready_count rest
  end.

(** The last statement of the [serverRemove] listener. *)
Definition report_empty (srv : gmap jsstring Host) : list signal :=
  if decide (srv = ∅) then [no_connections] else [].

(** The listener of [serverRemove].  Without a ring, [this.ring.replace]
    and [this.ring.remove] throw; [addServer] has registered the new server
    by then.  The report is an [emit('error', ...)] on the client, taken here
    as listened to. *)
Definition serverRemove (mgr : ServerManager) (server : Server)
  : ServerManager * list signal * outcome :=
  let old := server_host server in
  let srv := delete (host_string old) (servers mgr) in
  match replacementHosts mgr with
  | nhost :: rest =>
      match ring_ mgr with
      | Some r =>
          let '(r', srv', es) := addServer r srv nhost (Some old) in
          (mkServerManager (hosts mgr) rest (Some r') (ended mgr) (offlineQueue mgr)
             srv' (promises mgr),
           map Did es ++ report_empty srv', Returned)
      | None =>
          let h := default_port nhost in
          (mkServerManager (hosts mgr) rest None (ended mgr) (offlineQueue mgr)
             (<[host_string h := h]> srv) (promises mgr),
           [Did (ServerNew h)], Threw_TypeError)
      end
  | [] =>
      match ring_ mgr with
      | Some r =>
          (mkServerManager (hosts mgr) [] (Some (ring_remove (host_string old) r))
             (ended mgr) (offlineQueue mgr) srv (promises mgr),
           report_empty srv, Returned)
      | None =>
          (mkServerManager (hosts mgr) [] None (ended mgr) (offlineQueue mgr)
             srv (promises mgr),
           [], Threw_TypeError)
      end
  end.

(** Calls of [sendCommand] one after the other: the promises handed out
    and everything the calls did. *)
Fixpoint sendCommands (mgr : ServerManager) (calls : list (jsstring * list value))
  : ServerManager * list nat * list effect :=
  match calls with
  | [] => (mgr, [], [])
  | (cmd, args) :: rest =>
      let '(mgr, p, e1) := sendCommand commands mgr cmd args in
      let '(mgr, ps, e2) := sendCommands mgr rest in
      (mgr, p :: ps, e1 ++ e2)
  end.

End Listeners.

End Membership.

(** * Runs of a connection *)

Module EventLoop.
Import Connection.

(** What happens to a connection: the calls of its two methods, the events
    of its socket, its timer, and listeners for ['error'] coming and going on
    the connection and on its client. *)
Inductive input :=
| DoWrite (cmd : jsstring) (pack : list item) (h : handler)
| DoEnd
| SocketConnect
| SocketClose
| SocketEnd
| SocketError (msg : jsstring)
| SocketData (data : list byte)
| TimerFires
| OnError                  (* [connection.on('error', listener)] *)
| OffError                 (* [connection.removeListener('error', listener)] *)
| ClientOnError            (* the same on [this.client] *)
| ClientOffError.

(** The handlers an effect list has settled or called, in order. *)
Fixpoint settled (es : list effect) : list handler :=
  match es with
  | [] => []
  | HandlerResolve o _ :: rest => HObject o :: settled rest
  | HandlerReject o _ :: rest => HObject o :: settled rest
  | HandlerCall f _ _ :: rest => HFunction f :: settled rest
  | _ :: rest => settled rest
  end.

(** The handlers the calls of [write] brought, in order. *)
Fixpoint written (inputs : list input) : list handler :=
  match inputs with
  | [] => []
  | DoWrite _ _ h :: rest => h :: written rest
  | _ :: rest => written rest
  end.

(** Reconnection at work: a timer armed, or a connection attempt. *)
Definition is_reconnect (e : effect) : bool :=
  match e with
  | SetTimeout _ | StreamConnect _ _ => true
  | _ => false
  end.

Definition is_text (a : item) : bool :=
  match a with
  | IBuffer _ => false
  | IValue _ => true
  end.

(** The buffers of a pack, and the buffers an effect list writes. *)
Fixpoint buffers (pack : list item) : list (list byte) :=
  match pack with
  | [] => []
  | IBuffer b :: rest => b :: buffers rest
  | IValue _ :: rest => buffers rest
  end.

Fixpoint written_buffers (es : list effect) : list (list byte) :=
  match es with
  | [] => []
  | StreamWrite (WBuffer b) :: rest => b :: written_buffers rest
  | _ :: rest => written_buffers rest
  end.

(** The strings an effect list writes. *)
Fixpoint written_strings (es : list effect) : list jsstring :=
  match es with
  | [] => []
  | StreamWrite (WString s) :: rest => s :: written_strings rest
  | _ :: rest => written_strings rest
  end.

Section Loop.
Context {RD : ReaderOps}.

Definition step (s : Connection) (i : input) : Connection * list effect * outcome :=
  match i with
  | DoWrite cmd pack h => let '(s', es) := write s cmd pack h in (s', es, Returned)
  | DoEnd => let '(s', es) := end_ s in (s', es, Returned)
  | SocketConnect => let '(s', es) := on_connect s in (s', es, Returned)
  | SocketClose => on_close s
  | SocketEnd => on_end s
  | SocketError msg => on_error s msg
  | SocketData data => on_data s data
  | TimerFires => let '(s', es) := on_timer s in (s', es, Returned)
  | OnError => (set_errorListeners (S (errorListeners s)) s, [], Returned)
  | OffError => (set_errorListeners (Nat.pred (errorListeners s)) s, [], Returned)
  | ClientOnError =>
      (set_clientErrorListeners (S (clientErrorListeners s)) s, [], Returned)
  | ClientOffError =>
      (set_clientErrorListeners (Nat.pred (clientErrorListeners s)) s, [], Returned)
  end.

(** A run stops at the first exception, which no listener catches. *)
Fixpoint run (s : Connection) (inputs : list input)
  : Connection * list effect * outcome :=
  match inputs with
  | [] => (s, [], Returned)
  | i :: rest =>
      match step s i with
      | (s', es, Returned) =>
          let '(s'', es', out) := run s' rest in
          (s'', es ++ es', out)
      | r => r
      end
  end.

(** The delay a new connection retries with. *)
Definition configured_delay (options : ServerConnectionOptions) : N :=
  match opt_retryDelay options with
  | None | Some 0 => 2000
  | Some d => d
  end.

End Loop.

End EventLoop.

(** * More states for runs *)

Module Runs.




(** Two commands written and no reply read, on a connection that has a
    listener for ['error']. *)
Definition listened : @Connection.Connection Resp.ops :=
  Connection.set_errorListeners 1 Sample.get_a_b.

(** A command table in which [PING] is supported and has neither a router
    nor a key index. *)
Definition ping_table (cmd : jsstring) : option ServerManager.descriptor :=
  if decide (cmd = lit "PING") then
    Some (ServerManager.Descriptor (Some true) None None)
  else Sample.commands cmd.

#[export] Instance sum_ring_remove : Membership.RingRemove SumRing.ops := {
  ring_remove := fun k (r : list member) =>
    filter (fun m => negb (bool_decide (member_key m = k))) r
}.

End Runs.

(** * Properties of the router *)

Module RouterFacts.
Import ServerManager.

Section ScanFacts.
Local Open Scope nat_scope.

Lemma scan_hit (c : code_unit) (key : jsstring) (n i j : nat) :
  i <= j < i + n ->
  charAt key j = Some c ->
  (forall k d, i <= k < j -> charAt key k = Some d -> d <> c) ->
  scan c key i n = Some j.
Proof.
  revert i. induction n as [|n IH]; intros i Hj Hc Hbefore; [lia|].
  cbn [scan].
  destruct (Nat.eq_dec i j) as [->|Hne].
  - rewrite Hc, N.eqb_refl. reflexivity.
  - destruct (charAt key i) as [d|] eqn:Hd.
    + assert (d <> c) as Hdc by (apply (Hbefore i); [lia|exact Hd]).
      apply N.eqb_neq in Hdc. rewrite Hdc.
      apply IH; [lia|exact Hc|]. intros k e Hk. apply Hbefore. lia.
    + apply IH; [lia|exact Hc|]. intros k e Hk. apply Hbefore. lia.
Qed.

Lemma scan_miss (c : code_unit) (key : jsstring) (n i : nat) :
  (forall k d, i <= k < i + n -> charAt key k = Some d -> d <> c) ->
  scan c key i n = None.
Proof.
  revert i. induction n as [|n IH]; intros i Hnone; [reflexivity|].
  cbn [scan].
  destruct (charAt key i) as [d|] eqn:Hd.
  - assert (d <> c) as Hdc by (apply (Hnone i); [lia|exact Hd]).
    apply N.eqb_neq in Hdc. rewrite Hdc.
    apply IH. intros k e Hk. apply Hnone. lia.
  - apply IH. intros k e Hk. apply Hnone. lia.
Qed.

Lemma charAt_In (s : jsstring) (k : nat) (d : code_unit) :
  charAt s k = Some d -> In d s.
Proof. apply nth_error_In. Qed.

Lemma substring_middle (pre mid post : jsstring) :
  substring (length pre) (length pre + length mid) (pre ++ mid ++ post) = mid.
Proof.
  unfold substring.
  rewrite Nat.min_l, Nat.max_r by lia.
  replace (length pre + length mid - length pre) with (length mid) by lia.
  rewrite skipn_app, skipn_all, Nat.sub_diag, skipn_O. cbn [app].
  rewrite firstn_app, firstn_all, Nat.sub_diag, firstn_O.
  apply app_nil_r.
Qed.

End ScanFacts.

(** The key handed to the ring, for every shape of key: a key with a first
    [{] and a later [}] hashes what stands between the first [{] and the
    first [}] after it. *)
Lemma hashKey_tag (pre tag post : jsstring) :
  ~ In lbrace pre ->
  ~ In rbrace tag ->
  hashKey (pre ++ lbrace :: tag ++ rbrace :: post) = tag.
Proof.
  intros Hpre Htag. unfold hashKey.
  set (key := pre ++ lbrace :: tag ++ rbrace :: post).
  assert (length key = length pre + 1 + length tag + 1 + length post)%nat as Hlen.
  { unfold key. rewrite !length_app. cbn [length]. rewrite !length_app. cbn [length]. lia. }
  rewrite (scan_hit lbrace key (length key) 0 (length pre)).
  - rewrite (scan_hit rbrace key _ (length pre + 1)
               (length pre + 1 + length tag)).
    + unfold key.
      change (pre ++ lbrace :: tag ++ rbrace :: post)
        with (pre ++ [lbrace] ++ tag ++ rbrace :: post).
      rewrite app_assoc.
      replace (length pre + 1)%nat with (length (pre ++ [lbrace]))
        by (rewrite length_app; reflexivity).
      apply substring_middle.
    + lia.
    + unfold key, charAt.
      rewrite nth_error_app2 by lia.
      replace (length pre + 1 + length tag - length pre)%nat with (S (length tag)) by lia.
      cbn [nth_error]. rewrite nth_error_app2 by lia.
      rewrite Nat.sub_diag. reflexivity.
    + intros k d Hk Hd Heq. subst d. apply Htag.
      unfold key, charAt in Hd. rewrite nth_error_app2 in Hd by lia.
      destruct (k - length pre)%nat as [|k'] eqn:Hk'; [lia|].
      cbn [nth_error] in Hd. rewrite nth_error_app1 in Hd by lia.
      eapply nth_error_In. exact Hd.
  - lia.
  - unfold key, charAt. rewrite nth_error_app2 by lia.
    rewrite Nat.sub_diag. reflexivity.
  - intros k d Hk Hd Heq. subst d. apply Hpre.
    unfold key, charAt in Hd. rewrite nth_error_app1 in Hd by lia.
    eapply nth_error_In. exact Hd.
Qed.

(** A key without [{] is hashed whole. *)
Lemma hashKey_plain (k : jsstring) :
  ~ In lbrace k -> hashKey k = k.
Proof.
  intros Hk. unfold hashKey. rewrite scan_miss; [reflexivity|].
  intros i d _ Hd Heq. subst d. apply Hk. eapply charAt_In. exact Hd.
Qed.

(** A key whose first [{] has no [}] after it is hashed whole. *)
Lemma hashKey_open (pre rest : jsstring) :
  ~ In lbrace pre ->
  ~ In rbrace rest ->
  hashKey (pre ++ lbrace :: rest) = pre ++ lbrace :: rest.
Proof.
  intros Hpre Hrest. unfold hashKey.
  set (key := pre ++ lbrace :: rest).
  rewrite (scan_hit lbrace key (length key) 0 (length pre)).
  - rewrite scan_miss; [reflexivity|].
    intros k d Hk Hd Heq. subst d. apply Hrest.
    unfold key, charAt in Hd. rewrite nth_error_app2 in Hd by lia.
    destruct (k - length pre)%nat as [|k'] eqn:Hk'; [lia|].
    cbn [nth_error] in Hd. eapply nth_error_In. exact Hd.
  - unfold key. rewrite length_app. cbn [length]. lia.
  - unfold key, charAt. rewrite nth_error_app2 by lia.
    rewrite Nat.sub_diag. reflexivity.
  - intros k d Hk Hd Heq. subst d. apply Hpre.
    unfold key, charAt in Hd. rewrite nth_error_app1 in Hd by lia.
    eapply nth_error_In. exact Hd.
Qed.

(** ** Hash tags *)

(** C1: the key ["foo{}"] has an empty tag.  The inner loop stops at the
    [}] right after the [{] and assigns [key.substring(4, 4)]: the ring is
    asked for the empty string, not for ["foo{}"]. *)
Theorem empty_tag_hashes_the_empty_string :
  hashKey (lit "foo{}") = [] /\
  hashKey (lit "foo{}") <> lit "foo{}" /\
  forall (R : RingOps) (r : ring),
    serverNameForKey r (VStr (lit "foo{}")) = ring_getCached r [].
Proof.
  split; [reflexivity|]. split; [discriminate|].
  intros R r. reflexivity.
Qed.

(** C5: the first tag is extracted (["foo{bar}baz"] hashes ["bar"],
    ["a{b}{c}"] hashes ["b"]) and a key without braces is hashed whole, but a
    key whose only tag is empty, as ["x{}y"], is not hashed whole: the empty
    string is. *)
Theorem first_tag_examples_and_empty_tag :
  hashKey (lit "foo{bar}baz") = lit "bar" /\
  hashKey (lit "a{b}{c}") = lit "b" /\
  hashKey (lit "plainkey") = lit "plainkey" /\
  hashKey (lit "x{}y") = [] /\
  hashKey (lit "x{}y") <> lit "x{}y".
Proof. repeat split; try reflexivity; discriminate. Qed.

(** ** Dispatch *)

Section Dispatch.
Context {R : RingOps}.
Variable commands : jsstring -> option descriptor.

(** The test of the single-member branch fails on every ring. *)
Lemma members_length_is_never_1 (r : ring) : members_length_is_1 r = false.
Proof. unfold members_length_is_1. destruct (ring_members r !! lit "length"); reflexivity. Qed.

(** A supported command without router and without key index is rejected
    on a live router, whatever the ring holds. *)
Lemma keyless_command_is_rejected
    (mgr : ServerManager) (cmd : jsstring) (args : list value)
    (d : descriptor) (r : ring) :
  ended mgr = false ->
  offlineQueue mgr = None ->
  commands cmd = Some d ->
  is_supported d = true ->
  router d = None ->
  key d = None ->
  ring_ mgr = Some r ->
  sendCommand commands mgr cmd args
  = (set_promises (S (promises mgr)) mgr, promises mgr,
     [Reject (promises mgr) (not_supported cmd)]).
Proof.
  intros Hended Hqueue Hcmd Hsup Hrouter Hkey Hring.
  unfold sendCommand. cbn [ended offlineQueue set_promises].
  rewrite Hended, Hqueue.
  unfold dispatch. cbn [ring_ set_promises].
  rewrite Hcmd, Hsup, Hrouter, Hring, members_length_is_never_1, Hkey.
  reflexivity.
Qed.

(** A keyed command goes through the key branch; on a ring that looks
    every key up to its only member it reaches that member. *)
Lemma keyed_command_reaches_the_single_member
    (mgr : ServerManager) (cmd : jsstring) (args : list value)
    (d : descriptor) (r : ring) (m : member) (k : nat) :
  single_member_law R ->
  ended mgr = false ->
  offlineQueue mgr = None ->
  commands cmd = Some d ->
  is_supported d = true ->
  router d = None ->
  key d = Some k ->
  ring_ mgr = Some r ->
  ring_members r = {[ member_key m := m ]} ->
  snd (sendCommand commands mgr cmd args)
  = sendToServer mgr (Some (member_key m)) cmd (unwrap args) (promises mgr).
Proof.
  intros Hlaw Hended Hqueue Hcmd Hsup Hrouter Hkey Hring Hmembers.
  unfold sendCommand. cbn [ended offlineQueue set_promises].
  rewrite Hended, Hqueue. cbn [snd].
  unfold dispatch. cbn [ring_ set_promises].
  rewrite Hcmd, Hsup, Hrouter, Hring, members_length_is_never_1, Hkey.
  unfold serverNameForKey. rewrite (Hlaw r m _ Hmembers). reflexivity.
Qed.

End Dispatch.

(** C7: the ring has one member, its server is registered, and [PING] is a
    supported command with neither router nor key index.  The test
    [members.length === 1] reads a property the object [members] does not
    have, the single-member branch is skipped, and the command is rejected as
    not supported instead of going to the only server. *)
Theorem single_member_keyless_command_is_rejected :
  ring_ Sample.one_server = Some [Member (lit "10.0.0.1:6379") 1] /\
  ring_members (RingOps := SumRing.ops) [Member (lit "10.0.0.1:6379") 1]
  = {[ lit "10.0.0.1:6379" := Member (lit "10.0.0.1:6379") 1 ]} /\
  servers Sample.one_server !! lit "10.0.0.1:6379" = Some Sample.hostA /\
  Runs.ping_table (lit "PING") = Some (Descriptor (Some true) None None) /\
  sendCommand Runs.ping_table Sample.one_server (lit "PING") []
  = (set_promises 5 Sample.one_server, 4%nat,
     [Reject 4 (not_supported (lit "PING"))]).
Proof.
  split; [reflexivity|]. split; [reflexivity|]. split; [reflexivity|].
  split; [reflexivity|].
  exact (keyless_command_is_rejected Runs.ping_table Sample.one_server (lit "PING") []
           (Descriptor (Some true) None None) [Member (lit "10.0.0.1:6379") 1]
           eq_refl eq_refl eq_refl eq_refl eq_refl eq_refl eq_refl).
Qed.

(** ** The offline queue *)

(** Every effect of [sendCommand] holds the handle of the promise the call
    itself creates. *)
Lemma sendCommand_uses_its_own_promise
    {R : RingOps} (commands : jsstring -> option descriptor)
    (mgr : ServerManager) (cmd : jsstring) (args : list value) :
  let '(mgr', p, es) := sendCommand commands mgr cmd args in
  p = promises mgr /\ promises mgr' = S (promises mgr) /\
  Forall (fun e => effect_handle e = Some (promises mgr)) es.
Proof.
  unfold sendCommand. cbn [ended offlineQueue set_promises].
  destruct (ended mgr); [repeat constructor|].
  destruct (offlineQueue mgr); [repeat constructor|].
  split; [reflexivity|]. split; [reflexivity|].
  unfold dispatch, sendToServer.
  repeat match goal with
         | |- context [match ?x with _ => _ end] => destruct x
         end; repeat constructor.
Qed.

(** The drain settles no queued handle: whatever the queue holds, every
    effect of the re-submissions holds a promise created during the drain. *)
Lemma resubmit_settles_fresh_promises_only
    {R : RingOps} (commands : jsstring -> option descriptor) (shape : entry_shape)
    (es : list entry) :
  forall mgr : ServerManager,
    let '(mgr', effs, _) := resubmit commands shape mgr es in
    (promises mgr <= promises mgr')%nat /\
    Forall (fun e => forall p, effect_handle e = Some p -> (promises mgr <= p)%nat) effs.
Proof.
  induction es as [|e es IH]; intros mgr; cbn [resubmit].
  - split; [lia|constructor].
  - destruct (spread shape e) as [vs|]; [|split; [lia|constructor]].
    pose proof (sendCommand_uses_its_own_promise commands mgr
                  (String_ (hd VUndefined vs)) (tl vs)) as Hsend.
    destruct (sendCommand commands mgr _ _) as [[mgr1 p] e1].
    destruct Hsend as [_ [Hp He1]].
    specialize (IH mgr1).
    destruct (resubmit commands shape mgr1 es) as [[mgr2 e2] o].
    destruct IH as [Hle He2]. split; [lia|].
    apply Forall_app. split.
    + eapply Forall_impl; [exact He1|].
      intros x Hx q Hq. rewrite Hx in Hq. injection Hq as <-. lia.
    + eapply Forall_impl; [exact He2|].
      intros x Hx q Hq. specialize (Hx q Hq). lia.
Qed.

(** C3: the constructor, given a discovery function, queues its own
    [KEYS] (promise 0); a caller then submits the unknown command [FOO] and
    is handed promise 1, whose handle is queued.  When [connect] drains the
    queue, each entry goes through [sendCommand] again, which makes a promise
    of its own: the rejection of [FOO] lands on promise 3 when the entry
    spreads as an array, and the spread of the first entry throws when the
    entry is an object.  Either way the handle of promise 1 is never
    settled, and it is no longer queued. *)
Theorem offline_unsupported_command_loses_its_handle (shape : entry_shape) :
  let mgr0 := fst (discovering (H := SumRing.ops) Sample.commands None) in
  let '(mgr1, p, e0) := sendCommand Sample.commands mgr0 (lit "FOO") [] in
  let '(mgr2, effs, out) := connect Sample.commands shape mgr1 [Sample.hostA] [] in
  p = 1%nat /\ e0 = [] /\
  offlineQueue mgr1
  = Some [Entry (lit "KEYS") [VStr (lit "RDN_*")] 0; Entry (lit "FOO") [] 1] /\
  offlineQueue mgr2 = None /\
  (forall e, ~ In (Reject 1 e) effs) /\
  effs = [ServerNew Sample.hostA]
         ++ match shape with
            | ArrayEntry =>
                [RouterCall (lit "KEYS") [VArr [VStr (lit "RDN_*")]; VHandle 0] 2;
                 Reject 3 (not_supported (lit "FOO"))]
            | ObjectEntry => []
            end /\
  out = match shape with
        | ArrayEntry => Returned
        | ObjectEntry => Threw_TypeError
        end.
Proof.
  destruct shape; vm_compute; repeat split; try reflexivity.
  - intros e [Habs|[Habs|[Habs|[]]]]; discriminate.
  - intros e [Habs|[]]; discriminate.
Qed.

End RouterFacts.

(** * Properties of the transport *)

Module TransportFacts.
Import Connection.

(** ** UTF-8 and concatenation *)

Lemma utf8_ascii_app (a b : jsstring) :
  ascii_only a = true -> utf8 (a ++ b) = a ++ utf8 b.
Proof.
  induction a as [|c a IH]; intros Ha; [reflexivity|].
  cbn [ascii_only forallb] in Ha. apply andb_prop in Ha as [Hc Ha].
  apply N.ltb_lt in Hc.
  cbn [app utf8].
  assert (is_high c = false) as -> by (unfold is_high; apply andb_false_intro1, N.leb_gt; lia).
  assert (is_low c = false) as -> by (unfold is_low; apply andb_false_intro1, N.leb_gt; lia).
  unfold utf8_cp. apply N.ltb_lt in Hc. rewrite Hc. cbn [app].
  f_equal. apply IH, Ha.
Qed.

Lemma utf8_ascii (a : jsstring) : ascii_only a = true -> utf8 a = a.
Proof.
  intros Ha. rewrite <- (app_nil_r a) at 1.
  rewrite utf8_ascii_app by exact Ha. apply app_nil_r.
Qed.

Lemma utf8_cons (c : code_unit) (t : jsstring) :
  utf8 (c :: t)
  = if is_high c then
      match t with
      | d :: t' =>
          if is_low d then utf8_cp (pair_cp c d) ++ utf8 t'
          else replacement ++ utf8 t
      | [] => replacement
      end
    else if is_low c then replacement ++ utf8 t
    else utf8_cp c ++ utf8 t.
Proof. reflexivity. Qed.

(** Encoding distributes over a concatenation whose right part does not
    begin with a low surrogate. *)
Lemma utf8_app_plain (a : jsstring) (c : code_unit) (b : jsstring) :
  is_low c = false -> utf8 (a ++ c :: b) = utf8 a ++ utf8 (c :: b).
Proof.
  intros Hc.
  assert (forall n (x : jsstring), (length x <= n)%nat ->
            utf8 (x ++ c :: b) = utf8 x ++ utf8 (c :: b)) as Hall.
  { induction n as [|n IH]; intros x Hx.
    - destruct x; [reflexivity|cbn [length] in Hx; lia].
    - destruct x as [|u t]; [reflexivity|].
      cbn [length] in Hx.
      change ((u :: t) ++ c :: b) with (u :: (t ++ c :: b)).
      rewrite (utf8_cons u (t ++ c :: b)), (utf8_cons u t).
      destruct t as [|d t'].
      + cbn [app]. rewrite Hc.
        destruct (is_high u); [reflexivity|].
        change (utf8 []) with (@nil N). rewrite !app_nil_r.
        destruct (is_low u); reflexivity.
      + cbn [length] in Hx.
        assert (utf8 ((d :: t') ++ c :: b) = utf8 (d :: t') ++ utf8 (c :: b)) as Ht
          by (apply IH; cbn [length]; lia).
        cbn [app] in Ht |- *.
        destruct (is_high u).
        * destruct (is_low d).
          -- rewrite (IH t') by lia. apply app_assoc.
          -- rewrite Ht. apply app_assoc.
        * destruct (is_low u); rewrite Ht; apply app_assoc. }
  apply (Hall (length a)). lia.
Qed.

Lemma ascii_only_app (a b : jsstring) :
  ascii_only (a ++ b) = ascii_only a && ascii_only b.
Proof. apply forallb_app. Qed.

Lemma ascii_only_uint (d : Decimal.uint) :
  ascii_only (lit (NilEmpty.string_of_uint d)) = true.
Proof.
  induction d; cbn [NilEmpty.string_of_uint]; try reflexivity;
    unfold lit; cbn [list_ascii_of_string map ascii_only forallb];
    exact IHd.
Qed.

Lemma ascii_only_dec (n : nat) : ascii_only (dec n) = true.
Proof.
  unfold dec, NilZero.string_of_uint.
  destruct (Nat.to_uint n); try apply ascii_only_uint. reflexivity.
Qed.

Lemma wire_app (a b : list effect) : wire (a ++ b) = wire a ++ wire b.
Proof.
  induction a as [|e a IH]; [reflexivity|].
  destruct e; cbn [app wire]; rewrite ?IH; try reflexivity.
  apply app_assoc.
Qed.

Lemma wire_flush (command : jsstring) : wire (flush command) = utf8 command.
Proof.
  unfold flush. destruct command; [reflexivity|].
  cbn [nonempty wire chunk_bytes]. apply app_nil_r.
Qed.

(** The length line of a bulk is ASCII. *)
Lemma ascii_only_length_line (n : nat) :
  ascii_only (lit "$" ++ dec n ++ crlf) = true.
Proof.
  rewrite !ascii_only_app, ascii_only_dec. reflexivity.
Qed.

Lemma utf8_text_frame (s : jsstring) : utf8 (text_frame s) = bulk (utf8 s).
Proof.
  unfold text_frame, bulk, byteLength.
  rewrite (app_assoc (lit "$")), (app_assoc (lit "$" ++ _)).
  rewrite <- (app_assoc (lit "$")).
  rewrite utf8_ascii_app by apply ascii_only_length_line.
  rewrite (utf8_ascii (lit "$" ++ _ ++ crlf)) by apply ascii_only_length_line.
  f_equal. unfold crlf at 1. apply utf8_app_plain. reflexivity.
Qed.

(** The loop invariant of [write]: what is still to be written is the text
    gathered in [command], then the bulks of the elements left. *)
Lemma wire_write_loop (pack : list item) (command : jsstring) :
  wire (write_loop pack command)
  = utf8 command ++ flat_map (fun a => bulk (arg_bytes a)) pack.
Proof.
  revert command. induction pack as [|a pack IH]; intros command.
  - cbn [write_loop flat_map]. rewrite wire_flush. symmetry. apply app_nil_r.
  - destruct a as [b|v]; cbn [write_loop flat_map arg_bytes].
    + rewrite wire_app, wire_flush. f_equal.
      cbn [app wire chunk_bytes]. rewrite IH. cbn [utf8 app].
      unfold bulk. rewrite <- !app_assoc. reflexivity.
    + rewrite IH.
      assert (utf8 (command ++ text_frame (String_ v))
              = utf8 command ++ utf8 (text_frame (String_ v))) as ->.
      { unfold text_frame. cbn [lit list_ascii_of_string map app].
        apply utf8_app_plain. reflexivity. }
      rewrite utf8_text_frame. symmetry. apply app_assoc.
Qed.

Lemma utf8_header (cmd : jsstring) (argc : nat) :
  utf8 (header cmd argc)
  = utf8 (lit "*" ++ dec (argc + 1) ++ crlf)
    ++ utf8 (lit "$" ++ dec (length cmd) ++ crlf) ++ utf8 cmd ++ utf8 crlf.
Proof.
  unfold header.
  assert (ascii_only (lit "*" ++ dec (argc + 1) ++ crlf) = true) as Hstar
    by (rewrite !ascii_only_app, ascii_only_dec; reflexivity).
  rewrite (app_assoc (lit "*")), (app_assoc (lit "*" ++ _)).
  rewrite <- (app_assoc (lit "*")).
  rewrite utf8_ascii_app, (utf8_ascii (lit "*" ++ _ ++ crlf)) by exact Hstar.
  f_equal.
  rewrite (app_assoc (lit "$")), (app_assoc (lit "$" ++ _)).
  rewrite <- (app_assoc (lit "$")).
  rewrite utf8_ascii_app, (utf8_ascii (lit "$" ++ _ ++ crlf))
    by apply ascii_only_length_line.
  f_equal. unfold crlf at 1. apply utf8_app_plain. reflexivity.
Qed.

(** For an ASCII command name the bytes the code lays out are the frame of
    the specification: [cmd.length] is then the byte length of the name. *)
Lemma frame_ascii_command (cmd : jsstring) (pack : list item) :
  ascii_only cmd = true -> frame cmd pack = resp_frame cmd pack.
Proof.
  intros Hcmd. unfold frame, resp_frame, bulk.
  rewrite (utf8_ascii cmd Hcmd). rewrite <- !app_assoc. reflexivity.
Qed.

Section Transport.
Context {RD : ReaderOps}.

(** The bytes [write] puts on the stream, over all its calls of
    [stream.write], in the layout of the code. *)
Lemma wire_write
    (s : Connection) (cmd : jsstring) (pack : list item) (h : handler) :
  wire (snd (write s cmd pack h)) = frame cmd pack.
Proof.
  unfold write, frame. cbn [snd].
  rewrite wire_write_loop, utf8_header.
  rewrite <- !app_assoc. reflexivity.
Qed.

(** C8, for ASCII command names: the bytes [write] puts on the stream, over
    all its calls of [stream.write], are the frame: the array header counting
    the command and its arguments, then the command name and every argument
    in order as a length-prefixed bulk, a buffer byte for byte, anything else
    as the UTF-8 of its string. *)
Theorem write_emits_the_frame_of_an_ascii_name
    (s : Connection) (cmd : jsstring) (pack : list item) (h : handler) :
  ascii_only cmd = true ->
  wire (snd (write s cmd pack h)) = resp_frame cmd pack.
Proof.
  intros Hcmd. rewrite wire_write. apply frame_ascii_command, Hcmd.
Qed.

(** ** Connection loss *)

Lemma reject_all_eq (message : jsstring) (hs : list handler) :
  reject_all message hs
  = (map (notify message) (upto_function hs),
     if forallb is_object hs then Returned else Threw_TypeError).
Proof.
  induction hs as [|[o|f] hs IH]; try reflexivity.
  cbn [reject_all upto_function map forallb is_object andb notify].
  rewrite IH. reflexivity.
Qed.

Lemma upto_function_objects (hs : list handler) :
  forallb is_object hs = true -> upto_function hs = hs.
Proof.
  induction hs as [|[o|f] hs IH]; cbn [forallb is_object andb upto_function];
    intros Hall; try reflexivity; try discriminate.
  f_equal. apply IH, Hall.
Qed.



Lemma notifications_app (a b : list effect) :
  notifications (a ++ b) = notifications a ++ notifications b.
Proof.
  induction a as [|e a IH]; [reflexivity|].
  destruct e as [| | | | | | | | | |o r|o m|f [m|] r| |]; cbn [app notifications];
    rewrite ?IH; reflexivity.
Qed.

Lemma notifications_notify (message : jsstring) (hs : list handler) :
  notifications (map (notify message) hs) = map (fun h => (h, message)) hs.
Proof.
  induction hs as [|[o|f] hs IH]; [reflexivity| |];
    cbn [map notify notifications]; rewrite IH; reflexivity.
Qed.

Lemma timers_armed_app (a b : list effect) :
  timers_armed (a ++ b) = (timers_armed a + timers_armed b)%nat.
Proof.
  induction a as [|e a IH]; [reflexivity|].
  destruct e; cbn [app timers_armed]; rewrite ?IH; reflexivity.
Qed.

Lemma timers_armed_notify (message : jsstring) (hs : list handler) :
  timers_armed (map (notify message) hs) = O.
Proof.
  induction hs as [|[o|f] hs IH]; [reflexivity| |];
    cbn [map notify timers_armed]; exact IH.
Qed.

(** A loss signal on an ended or reconnecting connection is dropped. *)
Lemma loss_signal_ignored (s : Connection) (reason : jsstring) :
  ended s || reconnecting s = true -> _connectionLost s reason = (s, [], Returned).
Proof. intros Hs. unfold _connectionLost. rewrite Hs. reflexivity. Qed.

(** A loss signal on a live connection, by the kinds of its handlers. *)
Lemma loss_signal_live (s : Connection) (reason : jsstring) :
  ended s = false -> reconnecting s = false ->
  _connectionLost s reason
  = if forallb is_object (handlers s) then
      (set_retryTimer true (set_handlers [] (set_flags false (ended s) true s)),
       map (notify (lost_message s)) (handlers s)
       ++ [Emit EvReconnect; Emit (EvDebug reason); SetTimeout (retryDelay s)],
       Returned)
    else
      (set_flags false (ended s) true s,
       map (notify (lost_message s)) (upto_function (handlers s)),
       Threw_TypeError).
Proof.
  intros He Hr. unfold _connectionLost. rewrite He, Hr. cbn [orb].
  rewrite reject_all_eq. cbn [handlers set_flags].
  change (lost_message (set_flags false false true s)) with (lost_message s).
  destruct (forallb is_object (handlers s)) eqn:Hall; [|reflexivity].
  rewrite upto_function_objects by exact Hall. reflexivity.
Qed.

(** After a loss signal, however it ended, the connection is ended or
    reconnecting. *)
Lemma loss_signal_marks (s : Connection) (reason : jsstring) :
  let s1 := fst (fst (_connectionLost s reason)) in
  ended s1 || reconnecting s1 = true.
Proof.
  unfold _connectionLost.
  destruct (ended s || reconnecting s) eqn:Hs; [exact Hs|].
  apply orb_false_elim in Hs as [He Hr].
  destruct (reject_all _ _) as [es [| |]]; cbn; rewrite ?He; reflexivity.
Qed.

(** C6: of two loss signals in a row the second is dropped: it changes
    nothing and has no effect.  On a connection that was live, with
    [{ resolve, reject }] handles pending, the two signals together reject
    every pending handle once, in order, and arm one timer. *)
Theorem two_loss_signals_reject_and_arm_once
    (s : Connection) (r1 r2 : jsstring) :
  let '(s1, e1, o1) := _connectionLost s r1 in
  let '(s2, e2, o2) := _connectionLost s1 r2 in
  (s2 = s1 /\ e2 = [] /\ o2 = Returned) /\
  (ended s = false -> reconnecting s = false ->
   forallb is_object (handlers s) = true ->
   o1 = Returned /\
   notifications (e1 ++ e2) = map (fun h => (h, lost_message s)) (handlers s) /\
   timers_armed (e1 ++ e2) = 1%nat /\
   handlers s1 = [] /\ retryTimer s1 = true /\
   reconnecting s1 = true /\ connected s1 = false).
Proof.
  pose proof (loss_signal_marks s r1) as Hmark.
  destruct (_connectionLost s r1) as [[s1 e1] o1] eqn:H1. cbn [fst] in Hmark.
  rewrite (loss_signal_ignored s1 r2 Hmark).
  split; [repeat split|].
  intros He Hr Hall.
  rewrite (loss_signal_live s r1 He Hr), Hall in H1.
  injection H1 as <- <- <-.
  rewrite app_nil_r, notifications_app, timers_armed_app.
  rewrite notifications_notify, timers_armed_notify.
  cbn. rewrite app_nil_r. repeat split.
Qed.




(** ** After end() *)

(** C4, as the code has it: once [end()] ran, another [end()] and every
    loss signal return at their first line, without an effect; [write] has
    no such line: it queues the handler and issues the stream writes it
    issues on any other connection. *)
Theorem after_end_only_end_and_loss_are_dropped (s0 : Connection) :
  let s := fst (end_ s0) in
  ended s = true /\
  end_ s = (s, []) /\
  (forall reason, _connectionLost s reason = (s, [], Returned)) /\
  (forall cmd pack h,
     handlers (fst (write s cmd pack h)) = handlers s ++ [h] /\
     ended (fst (write s cmd pack h)) = true /\
     forall t : Connection, snd (write s cmd pack h) = snd (write t cmd pack h)).
Proof.
  assert (ended (fst (end_ s0)) = true) as Hended.
  { unfold end_. destruct (ended s0) eqn:He; [exact He|reflexivity]. }
  cbn zeta. split; [exact Hended|]. split; [|split].
  - unfold end_ at 1. rewrite Hended. reflexivity.
  - intros reason. apply loss_signal_ignored. rewrite Hended. reflexivity.
  - intros cmd pack h. unfold write. cbn [fst snd handlers ended set_handlers].
    auto.
Qed.

(** ** The data listener *)

(** C9, as the code has it: when [get] throws, no handler is settled and
    the pending handlers are as they were.  With a listener for ['error'] on
    the connection, the listener is called and the socket is destroyed; the
    pending handlers are rejected when the close of the socket reaches the
    loss handler.  With no such listener the emit throws, and the socket is
    not destroyed. *)
Theorem parse_failure_leaves_handlers_pending
    (s : Connection) (data : list byte) (message : jsstring) (rd : reader) :
  reader_get (reader_feed (reader_ s) data) = (GetThrow message, rd) ->
  (let '(s', es, _) := on_data s data in
   handlers s' = handlers s /\ EventLoop.settled es = [])
  /\ (errorListeners s <> O ->
      on_data s data
      = (set_reader rd s,
         [Emit (EvError (lit "Parser error: " ++ message)); StreamDestroy],
         Returned)
      /\ (ended s = false -> reconnecting s = false ->
          forallb is_object (handlers s) = true ->
          on_close (set_reader rd s)
          = (set_retryTimer true
               (set_handlers [] (set_flags false false true (set_reader rd s))),
             map (notify (lost_message s)) (handlers s)
             ++ [Emit EvReconnect; Emit (EvDebug (lit "close"));
                 SetTimeout (retryDelay s)],
             Returned)))
  /\ (errorListeners s = O ->
      on_data s data = (set_reader rd s, [], Threw_UnhandledError)).
Proof.
  intros Hget. unfold on_data. rewrite Hget. cbn [errorListeners set_reader].
  split; [|split].
  - destruct (errorListeners s); split; reflexivity.
  - intros Hlisten. destruct (errorListeners s); [contradiction|].
    split; [reflexivity|].
    intros He Hr Hall. unfold on_close.
    rewrite loss_signal_live by assumption.
    cbn [handlers set_reader ended]. rewrite Hall, He. reflexivity.
  - intros ->. reflexivity.
Qed.

(** One [data] event hands at most the first complete reply to the oldest
    handler; a second reply completed by the same bytes stays in the
    reader. *)
Lemma second_reply_stays_in_reader
    (s : Connection) (data : list byte) (r1 : reply) (rd1 : reader)
    (a : nat) (rest : list handler) :
  reader_get (reader_feed (reader_ s) data) = (GetReply r1, rd1) ->
  handlers s = HObject a :: rest ->
  on_data s data = (set_handlers rest (set_reader rd1 s), [settle a r1], Returned).
Proof.
  intros Hget Hhs. unfold on_data. rewrite Hget.
  cbn [handlers set_reader]. rewrite Hhs.
  destruct r1; reflexivity.
Qed.

(** When every chunk completes one reply, the handles settle in the order
    they were queued, each with the reply of its chunk. *)
Lemma one_reply_per_chunk_settles_in_order
    (chunks : list (list byte)) (rs : list reply) :
  forall (s : Connection) (ids : list nat) (rest : list handler),
    one_reply_each (reader_ s) chunks rs ->
    handlers s = map HObject ids ++ rest ->
    length ids = length rs ->
    exists s', feed_all s chunks = (s', zip_with settle ids rs, Returned)
               /\ handlers s' = rest.
Proof.
  revert rs. induction chunks as [|d chunks IH]; intros [|r rs] s ids rest Hrun Hhs Hlen;
    cbn [one_reply_each] in Hrun; try contradiction.
  - destruct ids; [|discriminate]. exists s. split; [reflexivity|exact Hhs].
  - destruct Hrun as [rd' [Hget Hrun]].
    destruct ids as [|a ids]; [discriminate|].
    cbn [map app] in Hhs. cbn [length] in Hlen.
    destruct (IH rs (set_handlers (map HObject ids ++ rest) (set_reader rd' s))
                ids rest Hrun eq_refl) as [s' [Hfeed Hrest]]; [lia|].
    exists s'. split; [|exact Hrest].
    cbn [feed_all].
    rewrite (second_reply_stays_in_reader s d r rd' a _ Hget Hhs).
    rewrite Hfeed. reflexivity.
Qed.

End Transport.

(** ** Runs *)

Lemma two_loss_signals_reject_and_arm_once_witness :
  ended Sample.get_a_b = false /\
  reconnecting Sample.get_a_b = false /\
  forallb is_object (handlers Sample.get_a_b) = true /\
  let '(s1, e1, o1) := _connectionLost Sample.get_a_b (lit "close") in
  let '(s2, e2, o2) := _connectionLost s1 (lit "end") in
  s2 = s1 /\ e2 = [] /\
  notifications (e1 ++ e2)
  = [(HObject 1, lit "Server connection lost to 10.0.0.1:6379");
     (HObject 2, lit "Server connection lost to 10.0.0.1:6379")] /\
  timers_armed (e1 ++ e2) = 1%nat.
Proof.
  repeat (split; [reflexivity|]).
  pose proof (two_loss_signals_reject_and_arm_once Sample.get_a_b
                (lit "close") (lit "end")) as Htwice.
  destruct (_connectionLost Sample.get_a_b (lit "close")) as [[s1 e1] o1].
  destruct (_connectionLost s1 (lit "end")) as [[s2 e2] o2].
  destruct Htwice as [[Hs [He Ho]] Hlive].
  destruct (Hlive eq_refl eq_refl eq_refl) as [_ [Hn [Ht _]]].
  repeat split; assumption.
Defined.


Lemma parse_failure_leaves_handlers_pending_witness :
  reader_get (reader_feed (reader_ Runs.listened) (lit "!x"))
  = (GetThrow (Resp.bad_type 33), lit "!x") /\
  errorListeners Runs.listened <> O /\
  on_data Runs.listened (lit "!x")
  = (@set_reader Resp.ops (lit "!x") Runs.listened,
     [Emit (EvError (lit "Parser error: " ++ Resp.bad_type 33)); StreamDestroy],
     Returned) /\
  handlers (@set_reader Resp.ops (lit "!x") Runs.listened) = [HObject 1; HObject 2].
Proof.
  split; [reflexivity|]. split; [discriminate|].
  destruct (parse_failure_leaves_handlers_pending Runs.listened (lit "!x")
              (Resp.bad_type 33) (lit "!x" : @reader Resp.ops) eq_refl)
    as [_ [Hlisten _]].
  destruct (Hlisten ltac:(discriminate)) as [Hdata _].
  split; [exact Hdata|reflexivity].
Defined.

(** A run against C9 as it is stated: nothing listens for ['error'] on the
    connection, [get] throws on the chunk, and the emit throws in turn: no
    listener is called and the socket is not destroyed. *)
Lemma parse_failure_without_listener_throws :
  errorListeners Sample.get_a_b = O /\
  reader_get (reader_feed (reader_ Sample.get_a_b) (lit "!x"))
  = (GetThrow (Resp.bad_type 33), lit "!x") /\
  on_data Sample.get_a_b (lit "!x")
  = (@set_reader Resp.ops (lit "!x") Sample.get_a_b, [], Threw_UnhandledError) /\
  ~ In StreamDestroy (snd (fst (on_data Sample.get_a_b (lit "!x")))).
Proof. repeat split. intros []. Qed.

Lemma write_emits_the_frame_of_an_ascii_name_witness :
  ascii_only (lit "SET") = true /\
  wire (snd (write Sample.up (lit "SET")
               [IValue (VStr (lit "k")); IBuffer [0; 255; 13; 10]] (HObject 1)))
  = lit "*3" ++ crlf ++ lit "$3" ++ crlf ++ lit "SET" ++ crlf
    ++ lit "$1" ++ crlf ++ lit "k" ++ crlf
    ++ lit "$4" ++ crlf ++ [0; 255; 13; 10] ++ crlf.
Proof.
  split; [reflexivity|].
  rewrite (write_emits_the_frame_of_an_ascii_name Sample.up (lit "SET")
             [IValue (VStr (lit "k")); IBuffer [0; 255; 13; 10]] (HObject 1) eq_refl).
  reflexivity.
Defined.

(** A run against C8 as it is stated: for the one-unit name [U+00E9] the
    bytes written announce a name of length 1 and carry two bytes, where the
    bulk of the name announces 2. *)
Lemma non_ascii_name_is_not_written_as_a_bulk :
  wire (snd (write Sample.up [233] [] (HObject 1)))
  = lit "*1" ++ crlf ++ lit "$1" ++ crlf ++ [195; 169] ++ crlf
  /\ resp_frame [233] [] = lit "*1" ++ crlf ++ lit "$2" ++ crlf ++ [195; 169] ++ crlf
  /\ wire (snd (write Sample.up [233] [] (HObject 1))) <> resp_frame [233] [].
Proof. repeat split. discriminate. Qed.

(** With a callback pending behind a handle, a loss signal rejects the
    handle, calls the callback and throws: the third handler is not told,
    the queue stays, no timer is armed, and [reconnecting] stays set, so
    that every later signal is dropped. *)
Lemma loss_with_callback_pending :
  let msg := lit "Server connection lost to 10.0.0.1:6379" in
  let '(s1, es, out) := _connectionLost Sample.with_callback (lit "close") in
  es = [HandlerReject 1 msg; HandlerCall 2 (Some msg) None] /\
  out = Threw_TypeError /\
  handlers s1 = [HObject 1; HFunction 2; HObject 3] /\
  retryTimer s1 = false /\
  reconnecting s1 = true /\
  _connectionLost s1 (lit "close") = (s1, [], Returned).
Proof. repeat split. Qed.

(** The length printed for the command name counts code units: for the
    one-unit name [U+00E9], two bytes follow the announced length 1. *)
Lemma frame_counts_code_units_of_the_name :
  frame [233] [] = lit "*1" ++ crlf ++ lit "$1" ++ crlf ++ [195; 169] ++ crlf.
Proof. reflexivity. Qed.

(** C2: two writes are pending and one chunk brings both replies.  The
    listener calls [get] once: the first handle is resolved, the second stays
    queued, and its reply stays in the reader, where the next [get] would
    find it. *)
Theorem two_replies_in_one_chunk_settle_one_handle :
  let data := lit "$1" ++ crlf ++ lit "A" ++ crlf ++ lit "$1" ++ crlf ++ lit "B" ++ crlf in
  let left := lit "$1" ++ crlf ++ lit "B" ++ crlf in
  handlers Sample.get_a_b = [HObject 1; HObject 2] /\
  on_data Sample.get_a_b data
  = (set_handlers [HObject 2] (@set_reader Resp.ops left Sample.get_a_b),
     [HandlerResolve 1 (RStr (lit "A"))],
     Returned) /\
  feed_all Sample.get_a_b [data]
  = (set_handlers [HObject 2] (@set_reader Resp.ops left Sample.get_a_b),
     [HandlerResolve 1 (RStr (lit "A"))],
     Returned) /\
  @reader_get Resp.ops left = (GetReply (RStr (lit "B")), []).
Proof. repeat split. Qed.

(** A run against C4 as it is stated: on a connection that was ended,
    [write] still queues the handler and calls [stream.write]. *)
Lemma write_after_end_is_not_dropped :
  let s := fst (end_ Sample.up) in
  let '(s', es) := write s (lit "GET") [IValue (VStr (lit "k"))] (HObject 7) in
  ended s = true /\
  handlers s = [] /\
  handlers s' = [HObject 7] /\
  s' <> s /\
  es = [StreamWrite (WString (lit "*2" ++ crlf ++ lit "$3" ++ crlf ++ lit "GET" ++ crlf
                              ++ lit "$1" ++ crlf ++ lit "k" ++ crlf))].
Proof. repeat split. discriminate. Qed.

End TransportFacts.

(** * More on the router *)

Module RouterMore.
Import ServerManager Membership.

(** ** Hash tags, for every key *)

Lemma first_occurrence (c : code_unit) (l : jsstring) :
  In c l -> exists pre post, l = pre ++ c :: post /\ ~ In c pre.
Proof.
  induction l as [|a l IH]; intros Hin; [contradiction|].
  destruct (N.eq_dec a c) as [->|Hne].
  - exists [], l. split; [reflexivity|]. intros [].
  - destruct Hin as [Heq|Hin]; [contradiction|].
    destruct (IH Hin) as [pre [post [-> Hpre]]].
    exists (a :: pre), post. split; [reflexivity|].
    intros [Heq|Hin']; [contradiction|]. exact (Hpre Hin').
Qed.

(** The shape of a key, by its first [{] and the first [}] behind it. *)
Lemma key_shape (k : jsstring) :
  ~ In lbrace k
  \/ (exists pre rest,
        k = pre ++ lbrace :: rest /\ ~ In lbrace pre /\ ~ In rbrace rest)
  \/ (exists pre tag post,
        k = pre ++ lbrace :: tag ++ rbrace :: post
        /\ ~ In lbrace pre /\ ~ In rbrace tag).
Proof.
  destruct (in_dec N.eq_dec lbrace k) as [Hl|Hl]; [|left; exact Hl].
  destruct (first_occurrence lbrace k Hl) as [pre [rest [-> Hpre]]].
  destruct (in_dec N.eq_dec rbrace rest) as [Hr|Hr].
  - destruct (first_occurrence rbrace rest Hr) as [tag [post [-> Htag]]].
    right. right. exists pre, tag, post. repeat split; assumption.
  - right. left. exists pre, rest. repeat split; assumption.
Qed.

(** X1: every key falls in one of three cases: it has no [{] and is hashed
    whole; its first [{] has no [}] behind it and it is hashed whole; or it
    reads [pre { tag } post], with the first [{] and the first [}] behind
    it, and [tag] is hashed. *)
Theorem hashKey_cases (k : jsstring) :
  (~ In lbrace k /\ hashKey k = k)
  \/ (exists pre rest,
        k = pre ++ lbrace :: rest /\ ~ In lbrace pre /\ ~ In rbrace rest
        /\ hashKey k = k)
  \/ (exists pre tag post,
        k = pre ++ lbrace :: tag ++ rbrace :: post
        /\ ~ In lbrace pre /\ ~ In rbrace tag
        /\ hashKey k = tag).
Proof.
  destruct (key_shape k)
    as [Hl|[(pre & rest & -> & Hpre & Hrest)|(pre & tag & post & -> & Hpre & Htag)]].
  - left. split; [exact Hl|]. apply RouterFacts.hashKey_plain, Hl.
  - right. left. exists pre, rest. repeat split; try assumption.
    apply RouterFacts.hashKey_open; assumption.
  - right. right. exists pre, tag, post. repeat split; try assumption.
    apply RouterFacts.hashKey_tag; assumption.
Qed.

Lemma hashKey_without_rbrace (t : jsstring) : ~ In rbrace t -> hashKey t = t.
Proof.
  intros Ht.
  destruct (in_dec N.eq_dec lbrace t) as [Hl|Hl].
  - destruct (first_occurrence lbrace t Hl) as [pre [rest [-> Hpre]]].
    apply RouterFacts.hashKey_open; [exact Hpre|].
    intros Hin. apply Ht. apply in_or_app. right. right. exact Hin.
  - apply RouterFacts.hashKey_plain, Hl.
Qed.

(** X2: the key handed to the ring is a piece of the key it comes from,
    and extracting again changes nothing: a routing key can be used as a
    key and routes to itself. *)
Theorem hashKey_stable (k : jsstring) :
  hashKey (hashKey k) = hashKey k
  /\ exists pre post, k = pre ++ hashKey k ++ post.
Proof.
  destruct (key_shape k)
    as [Hl|[(pre & rest & -> & Hpre & Hrest)|(pre & tag & post & -> & Hpre & Htag)]].
  - rewrite (RouterFacts.hashKey_plain k Hl). split; [apply RouterFacts.hashKey_plain, Hl|].
    exists [], []. rewrite app_nil_r. reflexivity.
  - rewrite (RouterFacts.hashKey_open pre rest Hpre Hrest).
    split; [apply RouterFacts.hashKey_open; assumption|].
    exists [], []. rewrite app_nil_r. reflexivity.
  - rewrite (RouterFacts.hashKey_tag pre tag post Hpre Htag).
    split; [apply hashKey_without_rbrace, Htag|].
    exists (pre ++ [lbrace]), (rbrace :: post).
    rewrite <- app_assoc. reflexivity.
Qed.

(** X3: keys that share their first tag are looked up alike, and like the
    tag itself: they land on the same server whatever surrounds the tag. *)
Theorem same_tag_same_server
    {R : RingOps} (r : ring) (pre1 post1 pre2 post2 tag : jsstring) :
  ~ In lbrace pre1 -> ~ In lbrace pre2 -> ~ In rbrace tag ->
  serverNameForKey r (VStr (pre1 ++ lbrace :: tag ++ rbrace :: post1))
  = serverNameForKey r (VStr (pre2 ++ lbrace :: tag ++ rbrace :: post2))
  /\ serverNameForKey r (VStr (pre1 ++ lbrace :: tag ++ rbrace :: post1))
     = ring_getCached r tag.
Proof.
  intros H1 H2 Ht. unfold serverNameForKey. cbn [String_].
  rewrite !RouterFacts.hashKey_tag by assumption. split; reflexivity.
Qed.

Lemma same_tag_same_server_witness :
  serverNameForKey (H := SumRing.ops)
    [Member (lit "10.0.0.1:6379") 1; Member (lit "10.0.0.2:6379") 1]
    (VStr (lit "user:{42}:name"))
  = serverNameForKey (H := SumRing.ops)
      [Member (lit "10.0.0.1:6379") 1; Member (lit "10.0.0.2:6379") 1]
      (VStr (lit "cart{42}")).
Proof.
  apply (same_tag_same_server (R := SumRing.ops)
           [Member (lit "10.0.0.1:6379") 1; Member (lit "10.0.0.2:6379") 1]
           (lit "user:") (lit ":name") (lit "cart") [] (lit "42")).
  - cbn. intros H. repeat destruct H as [H|H]; discriminate || contradiction.
  - cbn. intros H. repeat destruct H as [H|H]; discriminate || contradiction.
  - cbn. intros H. repeat destruct H as [H|H]; discriminate || contradiction.
Defined.

(** ** Submissions *)

Section Submissions.
Context {R : RingOps}.
Variable commands : jsstring -> option descriptor.

Lemma sendCommand_ended (mgr : ServerManager) (cmd : jsstring) (args : list value) :
  ended mgr = true ->
  sendCommand commands mgr cmd args
  = (set_promises (S (promises mgr)) mgr, promises mgr,
     [Reject (promises mgr) (Error (lit "Client has been ended."))]).
Proof.
  intros He. unfold sendCommand. cbn [ended set_promises]. rewrite He. reflexivity.
Qed.

Lemma sendCommands_ended (calls : list (jsstring * list value)) :
  forall mgr : ServerManager,
    ended mgr = true ->
    let '(mgr', ps, es) := sendCommands commands mgr calls in
    ps = seq (promises mgr) (length calls)
    /\ es = map (fun p => Reject p (Error (lit "Client has been ended."))) ps
    /\ ended mgr' = true
    /\ offlineQueue mgr' = offlineQueue mgr
    /\ servers mgr' = servers mgr.
Proof.
  induction calls as [|[cmd args] calls IH]; intros mgr He; cbn [sendCommands].
  - repeat split; try reflexivity; exact He.
  - rewrite (sendCommand_ended mgr cmd args He).
    specialize (IH (set_promises (S (promises mgr)) mgr) He).
    destruct (sendCommands commands _ calls) as [[mgr' ps] es].
    destruct IH as (Hps & Hes & He' & Hq & Hs).
    cbn [length seq map app]. cbn [promises set_promises] in Hps.
    rewrite Hps in *. rewrite Hes. repeat split; assumption.
Qed.

(** X4: once [end()] ran, every submission is rejected with "Client has
    been ended." on the promise it returns, whatever the command: nothing is
    queued and nothing reaches a server. *)
Theorem submissions_after_end_are_rejected
    (mgr : ServerManager) (calls : list (jsstring * list value)) :
  let '(mgr', ps, es) := sendCommands commands (fst (end_ mgr)) calls in
  ps = seq (promises mgr) (length calls)
  /\ es = map (fun p => Reject p (Error (lit "Client has been ended."))) ps
  /\ ended mgr' = true
  /\ offlineQueue mgr' = None.
Proof.
  pose proof (sendCommands_ended calls (fst (end_ mgr)) eq_refl) as Hrun.
  destruct (sendCommands commands (fst (end_ mgr)) calls) as [[mgr' ps] es].
  destruct Hrun as (Hps & Hes & He & Hq & _).
  repeat split; assumption.
Qed.

(** X5: the calls of [sendCommand] hand out consecutive promises, and every
    rejection, router call and server call they make holds the handle of one
    of these promises: a call never settles a handle that is not its own. *)
Theorem submissions_use_their_own_promises
    (calls : list (jsstring * list value)) :
  forall mgr : ServerManager,
    let '(mgr', ps, es) := sendCommands commands mgr calls in
    ps = seq (promises mgr) (length calls)
    /\ promises mgr' = (promises mgr + length calls)%nat
    /\ Forall (fun e => exists p, effect_handle e = Some p /\ In p ps) es.
Proof.
  induction calls as [|[cmd args] calls IH]; intros mgr; cbn [sendCommands].
  - split; [reflexivity|]. split; [cbn [length]; lia|constructor].
  - pose proof (RouterFacts.sendCommand_uses_its_own_promise commands mgr cmd args)
      as Hone.
    destruct (sendCommand commands mgr cmd args) as [[mgr1 p] e1].
    destruct Hone as (-> & Hp1 & He1).
    specialize (IH mgr1).
    destruct (sendCommands commands mgr1 calls) as [[mgr' ps] es].
    destruct IH as (Hps & Hp & Hes).
    cbn [length seq]. rewrite Hp1 in Hps, Hp.
    split; [rewrite Hps; reflexivity|]. split; [lia|].
    apply Forall_app. split.
    + eapply Forall_impl; [exact He1|].
      intros e He. exists (promises mgr). split; [exact He|left; reflexivity].
    + eapply Forall_impl; [exact Hes|].
      intros e (p & He & Hin). exists p. split; [exact He|right; exact Hin].
Qed.

(** The two messages of a rejection at dispatch differ. *)
Lemma unable_is_not_unsupported (cmd : jsstring) :
  Error (lit "Unable to acquire any server connections.") <> not_supported cmd.
Proof. unfold not_supported. cbn. discriminate. Qed.

(** X6: on a live router with a ring, a submission is rejected as "Command
    not supported" exactly when the table has no descriptor for it, or the
    descriptor says [supported: false], or it has neither a router nor a key
    index, whatever the ring holds. *)
Theorem not_supported_iff
    (mgr : ServerManager) (cmd : jsstring) (args : list value) (r : ring) :
  ended mgr = false ->
  offlineQueue mgr = None ->
  ring_ mgr = Some r ->
  snd (sendCommand commands mgr cmd args)
  = [Reject (promises mgr) (not_supported cmd)]
  <-> (commands cmd = None
       \/ exists d, commands cmd = Some d
                    /\ (supported d = Some false
                        \/ (router d = None /\ key d = None))).
Proof.
  intros He Hq Hr. unfold sendCommand. cbn [ended offlineQueue set_promises].
  rewrite He, Hq. cbn [snd]. unfold dispatch. cbn [ring_ set_promises]. rewrite Hr.
  rewrite RouterFacts.members_length_is_never_1.
  destruct (commands cmd) as [d|] eqn:Hd;
    [|split; [intros _; left; reflexivity|reflexivity]].
  unfold is_supported, sendToServer.
  destruct (supported d) as [[|]|] eqn:Hs;
    destruct (router d) as [n|] eqn:Hrt;
    destruct (key d) as [k|] eqn:Hk;
    try match goal with
        | |- context [servers ?x !! ?y] => destruct (servers x !! y)
        end;
    (split;
     [ intros Heq;
       first
         [ discriminate Heq
         | injection Heq as Heq; exfalso;
           exact (unable_is_not_unsupported cmd (f_equal _ Heq))
         | right; exists d; split; [reflexivity|];
           first [ left; exact Hs
                 | right; split; assumption ] ]
     | intros [Habs|(d' & Hd' & [Habs|(H1 & H2)])];
       first
         [ reflexivity
         | discriminate Habs
         | injection Hd' as <-; congruence ] ]).
Qed.

End Submissions.

Lemma not_supported_iff_witness :
  ended Sample.one_server = false /\
  offlineQueue Sample.one_server = None /\
  ring_ Sample.one_server = Some [Member (lit "10.0.0.1:6379") 1] /\
  snd (sendCommand Sample.commands Sample.one_server (lit "FOO") [])
  = [Reject 4 (not_supported (lit "FOO"))].
Proof.
  repeat (split; [reflexivity|]).
  apply (proj2 (not_supported_iff Sample.commands Sample.one_server (lit "FOO") []
                  [Member (lit "10.0.0.1:6379") 1] eq_refl eq_refl eq_refl)).
  left. reflexivity.
Defined.

Section KeyedDispatch.
Context {R : RingOps}.
Variable commands : jsstring -> option descriptor.


End KeyedDispatch.


(** ** connect *)

Section Connect.
Context {R : RingOps}.
Variable commands : jsstring -> option descriptor.
Variable shape : entry_shape.

Lemma default_port_string (h : Host) : host_string (default_port h) = host_string h.
Proof. unfold default_port. destruct (host_port h) as [[|p]|]; reflexivity. Qed.

Lemma default_port_set (h : Host) :
  exists p, host_port (default_port h) = Some p /\ p <> 0.
Proof.
  unfold default_port. destruct (host_port h) as [[|p]|] eqn:Hp; cbn [host_port].
  - exists 6379. split; [reflexivity|discriminate].
  - exists (N.pos p). split; [exact Hp|discriminate].
  - exists 6379. split; [reflexivity|discriminate].
Qed.

Lemma named_among (hs : list Host) (k : jsstring) :
  (exists h, In h hs /\ host_string h = k)
  \/ ~ (exists h, In h hs /\ host_string h = k).
Proof.
  induction hs as [|h hs IH].
  - right. intros (h & [] & _).
  - destruct (decide (host_string h = k)) as [Heq|Hne].
    + left. exists h. split; [left; reflexivity|exact Heq].
    + destruct IH as [(h' & Hin & Heq)|Hnone].
      * left. exists h'. split; [right; exact Hin|exact Heq].
      * right. intros (h' & [->|Hin] & Heq); [contradiction|].
        apply Hnone. exists h'. split; assumption.
Qed.

Lemma addServers_registry (hs : list Host) :
  forall (r : ring) (srv : gmap jsstring Host),
    let '(_, srv', es) := addServers r srv hs in
    es = map (fun h => ServerNew (default_port h)) hs
    /\ (forall k, (forall h, In h hs -> host_string h <> k) -> srv' !! k = srv !! k)
    /\ (forall k, (exists h, In h hs /\ host_string h = k) ->
          exists h, In h hs /\ host_string h = k /\ srv' !! k = Some (default_port h)).
Proof.
  induction hs as [|h hs IH]; intros r srv; cbn [addServers].
  - split; [reflexivity|]. split; [reflexivity|].
    intros k (h & [] & _).
  - unfold addServer.
    specialize (IH (ring_add (Member (host_string (default_port h))
                                (host_weight (default_port h))) r)
                   (<[host_string (default_port h) := default_port h]> srv)).
    destruct (addServers _ _ hs) as [[r' srv'] es].
    destruct IH as (Hes & Hout & Hin).
    split; [cbn [app map]; rewrite Hes; reflexivity|]. split.
    + intros k Hk. rewrite Hout by (intros h' Hh'; apply Hk; right; exact Hh').
      rewrite default_port_string. apply lookup_insert_ne. apply Hk. left. reflexivity.
    + intros k (h0 & Hh0 & Hk0).
      destruct (named_among hs k) as [Hlater|Hnot].
      * destruct (Hin k Hlater) as (h1 & Hh1 & Hk1 & Hl1).
        exists h1. split; [right; exact Hh1|]. split; assumption.
      * exists h. destruct Hh0 as [->|Hh0].
        -- split; [left; reflexivity|]. split; [exact Hk0|].
           rewrite Hout by (intros h' Hh' Heq; apply Hnot; exists h'; split; assumption).
           rewrite default_port_string, Hk0. apply lookup_insert_eq.
        -- exfalso. apply Hnot. exists h0. split; assumption.
Qed.

End Connect.

Section ConnectState.
Context {R : RingOps}.
Variable commands : jsstring -> option descriptor.
Variable shape : entry_shape.

Lemma sendCommand_keeps (mgr : ServerManager) (cmd : jsstring) (args : list value) :
  let mgr' := fst (fst (sendCommand commands mgr cmd args)) in
  servers mgr' = servers mgr /\ ring_ mgr' = ring_ mgr /\ hosts mgr' = hosts mgr
  /\ (offlineQueue mgr = None -> offlineQueue mgr' = None).
Proof.
  unfold sendCommand. cbn [ended offlineQueue set_promises].
  destruct (ended mgr); [repeat split; auto|].
  destruct (offlineQueue mgr) eqn:Hq;
    cbn [fst servers ring_ hosts offlineQueue set_offlineQueue set_promises];
    repeat split; auto; intros Habs; discriminate Habs.
Qed.

Lemma resubmit_keeps (es : list entry) :
  forall mgr : ServerManager,
    let mgr' := fst (fst (resubmit commands shape mgr es)) in
    servers mgr' = servers mgr /\ ring_ mgr' = ring_ mgr /\ hosts mgr' = hosts mgr
    /\ (offlineQueue mgr = None -> offlineQueue mgr' = None).
Proof.
  induction es as [|e es IH]; intros mgr; cbn [resubmit].
  - repeat split; auto.
  - destruct (spread shape e) as [vs|]; [|repeat split; auto].
    pose proof (sendCommand_keeps mgr (String_ (hd VUndefined vs)) (tl vs)) as Hone.
    destruct (sendCommand commands mgr _ _) as [[mgr1 p] e1]. cbn [fst] in Hone.
    specialize (IH mgr1).
    destruct (resubmit commands shape mgr1 es) as [[mgr2 e2] o]. cbn [fst] in IH |- *.
    destruct Hone as (H1 & H2 & H3 & H4), IH as (I1 & I2 & I3 & I4).
    repeat split; try congruence. auto.
Qed.

(** X8: when [connect] is done (or has thrown in its drain), the offline
    queue is gone, the ring exists, every host of the manager has a port, and
    a command sent under the name of any of its hosts reaches a server: it is
    not rejected for want of a connection. *)
Theorem connect_registers_every_host
    (mgr : ServerManager) (hs reps : list Host) :
  let '(mgr', _, _) := connect commands shape mgr hs reps in
  offlineQueue mgr' = None
  /\ (exists r, ring_ mgr' = Some r)
  /\ Forall (fun h => exists p, host_port h = Some p /\ p <> 0) (hosts mgr')
  /\ (forall h, In h (hosts mgr ++ hs) ->
      forall cmd args p,
        sendToServer mgr' (Some (host_string h)) cmd args p
        = [ServerSendCommand (host_string h) cmd args p]).
Proof.
  unfold connect.
  pose proof (addServers_registry (hosts mgr ++ hs) ring_new (servers mgr)) as Hreg.
  destruct (addServers ring_new (servers mgr) (hosts mgr ++ hs)) as [[r srv] e1].
  destruct Hreg as (_ & _ & Hin).
  cbn [offlineQueue].
  assert (forall mgr' : ServerManager,
            servers mgr' = srv -> ring_ mgr' = Some r ->
            hosts mgr' = map default_port (hosts mgr ++ hs) ->
            offlineQueue mgr' = None ->
            offlineQueue mgr' = None
            /\ (exists r0, ring_ mgr' = Some r0)
            /\ Forall (fun h => exists p, host_port h = Some p /\ p <> 0) (hosts mgr')
            /\ (forall h, In h (hosts mgr ++ hs) ->
                forall cmd args p,
                  sendToServer mgr' (Some (host_string h)) cmd args p
                  = [ServerSendCommand (host_string h) cmd args p])) as Hdone.
  { intros mgr' Hs Hr Hh Hq. split; [exact Hq|]. split; [exists r; exact Hr|]. split.
    - rewrite Hh. apply Forall_forall. intros h' Hh'.
      apply list_elem_of_In, in_map_iff in Hh' as (h0 & <- & _).
      apply default_port_set.
    - intros h Hh0 cmd args p. unfold sendToServer. cbn [property]. rewrite Hs.
      destruct (Hin (host_string h)) as (h1 & _ & _ & ->);
        [exists h; split; [exact Hh0|reflexivity]|reflexivity]. }
  destruct (offlineQueue mgr) as [q|].
  - cbn [drain].
    pose proof (resubmit_keeps q
                  (set_offlineQueue None
                     (mkServerManager (map default_port (hosts mgr ++ hs))
                        (replacementHosts mgr ++ reps) (Some r) (ended mgr)
                        (Some q) srv (promises mgr)))) as Hkeep.
    destruct (resubmit commands shape _ q) as [[mgr' e2] o]. cbn [fst] in Hkeep.
    destruct Hkeep as (K1 & K2 & K3 & K4).
    apply Hdone; [exact K1|exact K2|exact K3|exact (K4 eq_refl)].
  - apply Hdone; reflexivity.
Qed.

End ConnectState.

(** ** The membership listeners *)

Section Listeners.
Context {R : RingOps} {RR : RingRemove R}.

Lemma delete_empty_iff (old : jsstring) (srv : gmap jsstring Host) :
  delete old srv = ∅ <-> (forall k, k <> old -> srv !! k = None).
Proof.
  split.
  - intros Hempty k Hk.
    rewrite <- (lookup_delete_ne srv old k) by congruence.
    rewrite Hempty. apply lookup_empty.
  - intros Hnone. apply map_eq. intros k. rewrite lookup_empty.
    destruct (decide (k = old)) as [->|Hk].
    + apply lookup_delete_eq.
    + rewrite lookup_delete_ne by congruence. apply Hnone, Hk.
Qed.


(** X10: the listener reports NO_CONNECTIONS exactly when no replacement
    was waiting and no server other than the lost one was registered. *)
Theorem no_connections_iff
    (mgr : ServerManager) (server : Server) (r : ring) :
  ring_ mgr = Some r ->
  let '(_, sigs, _) := serverRemove mgr server in
  In no_connections sigs
  <-> (replacementHosts mgr = []
       /\ forall k, k <> host_string (server_host server) -> servers mgr !! k = None).
Proof.
  intros Hr. unfold serverRemove. rewrite Hr.
  destruct (replacementHosts mgr) as [|nh rest].
  - unfold report_empty.
    destruct (decide (delete (host_string (server_host server)) (servers mgr) = ∅))
      as [He|Hne].
    + split; [|intros _; left; reflexivity].
      intros _. split; [reflexivity|]. apply delete_empty_iff, He.
    + split; [intros []|].
      intros [_ Hnone]. exfalso. apply Hne, delete_empty_iff, Hnone.
  - unfold addServer, report_empty.
    destruct (decide (_ = ∅)) as [He|Hne].
    + exfalso. exact (insert_non_empty _ _ _ He).
    + split; [|intros [Habs _]; discriminate].
      cbn [map app]. intros [Habs|[]]. discriminate.
Qed.

Lemma ready_count_app (a b : list signal) :
  ready_count (a ++ b) = (ready_count a + ready_count b)%nat.
Proof.
  induction a as [|e a IH]; [reflexivity|].
  destruct e; cbn [app ready_count]; rewrite IH; reflexivity.
Qed.

Lemma connectCounter_drained (mgr : ServerManager) (st : Setup) (server : Server) :
  counting st = true ->
  let n := length (hosts mgr) in
  let '(st', sigs) := connectCounter mgr st server in
  connected st' = S (connected st)
  /\ counting st' = negb (S (connected st) =? n)%nat
  /\ ready st' = (ready st || (S (connected st) =? n)%nat)
  /\ ready_count sigs = (if (S (connected st) =? n)%nat then 1 else 0)%nat.
Proof.
  intros Hc. unfold connectCounter. rewrite Hc.
  assert (forall q : list entry,
            ready_count
              (map (fun e => Did (ServerSendCommand (host_string (server_host server))
                                    (entry_cmd e) (entry_args e) (entry_handler e))) q)
            = O) as Hq by (induction q as [|e q IH]; [reflexivity|exact IH]).
  destruct (S (connected st) =? length (hosts mgr))%nat;
    cbn [connected counting ready negb]; rewrite ?ready_count_app, ?orb_true_r, ?orb_false_r;
    destruct (server_offlineQueue server); cbn [drain fst]; rewrite ?Hq;
    repeat split.
Qed.

Lemma serverConnects_from (mgr : ServerManager) (servers : list Server) :
  forall st : Setup,
    let n := length (hosts mgr) in
    let k := length servers in
    let hit := ((connected st <? n) && (n <=? connected st + k))%nat in
    let '(st', sigs) := serverConnects mgr st servers in
    if counting st then
      ready_count sigs = (if hit then 1 else 0)%nat
      /\ ready st' = (ready st || hit)
      /\ counting st' = negb hit
      /\ connected st' = (if hit then n else connected st + k)%nat
    else st' = st /\ ready_count sigs = O.
Proof.
  induction servers as [|server servers IH]; intros st; cbn [serverConnects length].
  - destruct (counting st) eqn:Hc; [|split; reflexivity].
    replace ((connected st <? length (hosts mgr))%nat
             && (length (hosts mgr) <=? connected st + 0)%nat) with false.
    + rewrite orb_false_r, Nat.add_0_r. repeat split.
    + symmetry. apply andb_false_iff.
      destruct (Nat.ltb_spec (connected st) (length (hosts mgr))); [right|left; reflexivity].
      apply Nat.leb_gt. lia.
  - destruct (counting st) eqn:Hc.
    + pose proof (connectCounter_drained mgr st server Hc) as Hone.
      destruct (connectCounter mgr st server) as [st1 e1].
      destruct Hone as (H1 & H2 & H3 & H4).
      specialize (IH st1).
      destruct (serverConnects mgr st1 servers) as [st2 e2].
      rewrite ready_count_app, H4. rewrite H2, H1 in IH.
      destruct (Nat.eqb_spec (S (connected st)) (length (hosts mgr))) as [Heq|Hne];
        cbn [negb] in IH.
      * destruct IH as [-> ->].
        replace ((connected st <? length (hosts mgr))%nat
                 && (length (hosts mgr) <=? connected st + S (length servers))%nat)
          with true
          by (symmetry; apply andb_true_iff; split;
              [apply Nat.ltb_lt|apply Nat.leb_le]; lia).
        rewrite H3, H2, H1.
        destruct (Nat.eqb_spec (S (connected st)) (length (hosts mgr))); [|contradiction].
        rewrite orb_true_r. repeat split. lia.
      * rewrite H3 in IH.
        destruct (Nat.eqb_spec (S (connected st)) (length (hosts mgr))); [contradiction|].
        rewrite orb_false_r in IH.
        replace ((connected st <? length (hosts mgr))%nat
                 && (length (hosts mgr) <=? connected st + S (length servers))%nat)
          with ((S (connected st) <? length (hosts mgr))%nat
                && (length (hosts mgr) <=? S (connected st) + length servers)%nat).
        -- destruct IH as (I1 & I2 & I3 & I4). rewrite I1, I2, I3, I4.
           repeat split.
           destruct (_ && _); [reflexivity|lia].
        -- replace (connected st + S (length servers))%nat
             with (S (connected st) + length servers)%nat by lia.
           f_equal.
           destruct (Nat.ltb_spec (S (connected st)) (length (hosts mgr)));
             destruct (Nat.ltb_spec (connected st) (length (hosts mgr)));
             try reflexivity; lia.
    + unfold connectCounter. rewrite Hc.
      specialize (IH st). rewrite Hc in IH.
      destruct (serverConnects mgr st servers) as [st2 e2].
      destruct IH as [-> He2]. split; [reflexivity|exact He2].
Qed.

(** X11: however many servers report their connection, [ready] is emitted
    at most once: on the report that brings the count to the number of
    hosts, and never when the manager has no host. *)
Theorem ready_is_emitted_once (mgr : ServerManager) (servers : list Server) :
  let n := length (hosts mgr) in
  let k := length servers in
  let '(st, sigs) := serverConnects mgr setup_start servers in
  ready_count sigs = (if (1 <=? n) && (n <=? k) then 1 else 0)%nat
  /\ ready st = ((1 <=? n) && (n <=? k))%nat.
Proof.
  pose proof (serverConnects_from mgr servers setup_start) as Hrun.
  cbn [connected counting ready setup_start] in Hrun.
  destruct (serverConnects mgr setup_start servers) as [st sigs].
  cbn zeta in *. cbn [Nat.add orb] in Hrun.
  destruct Hrun as (H1 & H2 & _ & _).
  replace (1 <=? length (hosts mgr))%nat with (0 <? length (hosts mgr))%nat
    by (destruct (length (hosts mgr)); reflexivity).
  split; assumption.
Qed.

End Listeners.


Lemma no_connections_iff_witness :
  ring_ Sample.one_server = Some [Member (lit "10.0.0.1:6379") 1] /\
  let '(_, sigs, _) := serverRemove (RR := Runs.sum_ring_remove) Sample.one_server (mkServer Sample.hostA None) in
  In no_connections sigs.
Proof.
  split; [reflexivity|].
  pose proof (no_connections_iff (RR := Runs.sum_ring_remove) Sample.one_server (mkServer Sample.hostA None)
                [Member (lit "10.0.0.1:6379") 1] eq_refl) as Hiff.
  destruct (serverRemove (RR := Runs.sum_ring_remove) Sample.one_server (mkServer Sample.hostA None))
    as [[mgr' sigs] out].
  apply Hiff. split; [reflexivity|].
  intros k Hk. unfold Sample.one_server. cbn [servers].
  rewrite lookup_insert_ne by (cbn [server_host Sample.hostA host_string] in Hk; congruence).
  apply lookup_empty.
Defined.

End RouterMore.

(** * More on the transport *)

Module TransportMore.
Import Connection EventLoop.

(** ** What write puts on the stream *)

Lemma settled_app (a b : list effect) : settled (a ++ b) = settled a ++ settled b.
Proof.
  induction a as [|e a IH]; [reflexivity|].
  destruct e; cbn [app settled]; rewrite ?IH; reflexivity.
Qed.

Lemma settled_flush (command : jsstring) : settled (flush command) = [].
Proof. unfold flush. destruct (nonempty command); reflexivity. Qed.

Lemma settled_write_loop (pack : list item) :
  forall command, settled (write_loop pack command) = [].
Proof.
  induction pack as [|[b|v] pack IH]; intros command; cbn [write_loop].
  - apply settled_flush.
  - rewrite !settled_app, settled_flush, IH. reflexivity.
  - apply IH.
Qed.

Lemma settled_notify (message : jsstring) (hs : list handler) :
  settled (map (notify message) hs) = hs.
Proof.
  induction hs as [|[o|f] hs IH]; [reflexivity| |];
    cbn [map notify settled]; rewrite IH; reflexivity.
Qed.

Lemma header_nonempty (cmd : jsstring) (argc : nat) : nonempty (header cmd argc) = true.
Proof. reflexivity. Qed.

Lemma nonempty_app_r (a b : jsstring) : nonempty b = true -> nonempty (a ++ b) = true.
Proof. destruct a; [auto|reflexivity]. Qed.

Lemma text_frame_nonempty (s : jsstring) : nonempty (text_frame s) = true.
Proof. reflexivity. Qed.

(** The text the loop has gathered when it meets no buffer. *)
Lemma write_loop_text (pack : list item) :
  forall command,
    forallb is_text pack = true ->
    nonempty command = true ->
    exists text,
      write_loop pack command = [StreamWrite (WString (command ++ text))].
Proof.
  induction pack as [|[b|v] pack IH]; intros command Htext Hne;
    cbn [forallb is_text andb] in Htext; try discriminate.
  - exists []. cbn [write_loop]. unfold flush. rewrite Hne, app_nil_r. reflexivity.
  - cbn [write_loop].
    destruct (IH (command ++ text_frame (String_ v)) Htext
                (nonempty_app_r _ _ (text_frame_nonempty _))) as [text Htext'].
    exists (text_frame (String_ v) ++ text). rewrite Htext', <- app_assoc. reflexivity.
Qed.

Section Writes.
Context {RD : ReaderOps}.

(** X12: a command whose arguments hold no buffer goes out in a single call
    of [stream.write], whose bytes are the frame. *)
Theorem text_command_is_one_write
    (s : Connection) (cmd : jsstring) (pack : list item) (h : handler) :
  forallb is_text pack = true ->
  exists text,
    snd (write s cmd pack h) = [StreamWrite (WString text)]
    /\ utf8 text = frame cmd pack.
Proof.
  intros Htext. unfold write. cbn [snd].
  destruct (write_loop_text pack (header cmd (length pack)) Htext (header_nonempty _ _))
    as [text Hloop].
  exists (header cmd (length pack) ++ text). split; [exact Hloop|].
  pose proof (TransportFacts.wire_write_loop pack (header cmd (length pack))) as Hwire.
  rewrite Hloop in Hwire. cbn [wire chunk_bytes] in Hwire.
  rewrite app_nil_r in Hwire. rewrite Hwire.
  unfold frame. rewrite TransportFacts.utf8_header, <- !app_assoc. reflexivity.
Qed.

Lemma written_buffers_app (a b : list effect) :
  written_buffers (a ++ b) = written_buffers a ++ written_buffers b.
Proof.
  induction a as [|e a IH]; [reflexivity|].
  destruct e as [| | | |[x|x]| | | | | | | | | |]; cbn [app written_buffers];
    rewrite ?IH; reflexivity.
Qed.

Lemma written_strings_app (a b : list effect) :
  written_strings (a ++ b) = written_strings a ++ written_strings b.
Proof.
  induction a as [|e a IH]; [reflexivity|].
  destruct e as [| | | |[x|x]| | | | | | | | | |]; cbn [app written_strings];
    rewrite ?IH; reflexivity.
Qed.

Lemma write_loop_chunks (pack : list item) :
  forall command,
    written_buffers (write_loop pack command) = buffers pack
    /\ Forall (fun s => nonempty s = true) (written_strings (write_loop pack command)).
Proof.
  induction pack as [|[b|v] pack IH]; intros command; cbn [write_loop buffers].
  - unfold flush. destruct (nonempty command) eqn:Hne; cbn; split; auto.
  - destruct (IH []) as [Hb Hs].
    rewrite !written_buffers_app, !written_strings_app. split.
    + unfold flush. destruct (nonempty command); cbn; rewrite Hb; reflexivity.
    + apply Forall_app. split.
      * unfold flush. destruct (nonempty command) eqn:Hne; cbn; auto.
      * apply Forall_app. split; [|exact Hs].
        cbn. repeat constructor.
  - apply IH.
Qed.

(** X13: the buffers of a command are handed to [stream.write] as they are,
    each once and in the order of the arguments, and no call of
    [stream.write] is given an empty string. *)
Theorem buffers_are_written_as_given
    (s : Connection) (cmd : jsstring) (pack : list item) (h : handler) :
  written_buffers (snd (write s cmd pack h)) = buffers pack
  /\ Forall (fun t => nonempty t = true) (written_strings (snd (write s cmd pack h))).
Proof. unfold write. cbn [snd]. apply write_loop_chunks. Qed.

End Writes.

Lemma text_command_is_one_write_witness :
  exists text,
    snd (write Sample.up (lit "SET") [IValue (VStr (lit "k")); IValue (VNum (SafeInteger 42 eq_refl))] (HObject 1))
    = [StreamWrite (WString text)]
    /\ utf8 text = frame (lit "SET") [IValue (VStr (lit "k")); IValue (VNum (SafeInteger 42 eq_refl))].
Proof.
  apply (text_command_is_one_write Sample.up (lit "SET")
           [IValue (VStr (lit "k")); IValue (VNum (SafeInteger 42 eq_refl))] (HObject 1)).
  reflexivity.
Defined.

(** ** Runs *)

Section Runs.
Context {RD : ReaderOps}.

Lemma loss_conserves (s s' : Connection) (reason : jsstring) (es : list effect) :
  _connectionLost s reason = (s', es, Returned) ->
  settled es ++ handlers s' = handlers s.
Proof.
  destruct (ended s || reconnecting s) eqn:Hs.
  - rewrite (TransportFacts.loss_signal_ignored s reason Hs).
    intros Heq. injection Heq as <- <-. reflexivity.
  - apply orb_false_elim in Hs as [He Hr].
    rewrite (TransportFacts.loss_signal_live s reason He Hr).
    destruct (forallb is_object (handlers s)); [|discriminate].
    intros Heq. injection Heq as <- <-.
    rewrite settled_app, settled_notify. cbn. rewrite !app_nil_r. reflexivity.
Qed.

Lemma step_conserves (s s' : Connection) (i : input) (es : list effect) :
  step s i = (s', es, Returned) ->
  settled es ++ handlers s' = handlers s ++ written [i].
Proof.
  destruct i as [cmd pack h| | | | |msg|data| | | | |]; cbn [step written];
    rewrite ?app_nil_r.
  9-12: (intros Heq; injection Heq as <- <-; reflexivity).
  - unfold write. intros Heq. injection Heq as <- <-.
    rewrite settled_write_loop. reflexivity.
  - unfold end_. destruct (ended s); intros Heq; injection Heq as <- <-; reflexivity.
  - unfold on_connect. intros Heq. injection Heq as <- <-. reflexivity.
  - apply loss_conserves.
  - apply loss_conserves.
  - unfold on_error. destruct (clientErrorListeners s); [discriminate|].
    destruct (_connectionLost s (lit "error")) as [[s1 e1] o1] eqn:Hlost.
    intros Heq. injection Heq as <- <- ->.
    cbn [settled]. eapply loss_conserves. exact Hlost.
  - unfold on_data.
    destruct (reader_get (reader_feed (reader_ s) data)) as [[|r|m] rd];
      cbn [handlers set_reader errorListeners].
    + intros Heq. injection Heq as <- <-. reflexivity.
    + destruct (handlers s) as [|h rest]; [discriminate|].
      destruct r, h; intros Heq; try discriminate; injection Heq as <- <-; reflexivity.
    + destruct (errorListeners s); [discriminate|].
      intros Heq. injection Heq as <- <-. reflexivity.
  - unfold on_timer. destruct (retryTimer s); intros Heq; injection Heq as <- <-;
      reflexivity.
Qed.

Lemma written_cons (i : input) (rest : list input) :
  written (i :: rest) = written [i] ++ written rest.
Proof. destruct i; reflexivity. Qed.

(** X14: in a run that no exception ends, the handlers settled so far,
    followed by those still pending, are the handlers pending at the start
    followed by those written since, in that order: no handler is lost,
    settled twice or overtaken. *)
Theorem handlers_are_conserved (inputs : list input) :
  forall (s s' : Connection) (es : list effect),
    run s inputs = (s', es, Returned) ->
    settled es ++ handlers s' = handlers s ++ written inputs.
Proof.
  induction inputs as [|i inputs IH]; intros s s' es; cbn [run].
  - intros Heq. injection Heq as <- <-. cbn. rewrite app_nil_r. reflexivity.
  - destruct (step s i) as [[s1 e1] [| |]] eqn:Hstep; try discriminate.
    destruct (run s1 inputs) as [[s2 e2] o2] eqn:Hrun.
    intros Heq. injection Heq as <- <- ->.
    rewrite settled_app, <- app_assoc, (IH _ _ _ Hrun), app_assoc.
    rewrite (step_conserves _ _ _ _ Hstep), <- app_assoc, <- written_cons.
    reflexivity.
Qed.

End Runs.

Lemma handlers_are_conserved_witness :
  let inputs :=
    [DoWrite (lit "GET") [IValue (VStr (lit "a"))] (HObject 1);
     DoWrite (lit "GET") [IValue (VStr (lit "b"))] (HFunction 2);
     SocketData (lit "+OK" ++ crlf);
     DoWrite (lit "GET") [IValue (VStr (lit "c"))] (HObject 3);
     SocketData (lit ":7" ++ crlf)] in
  let '(s', es, out) := run Sample.up inputs in
  out = Returned
  /\ settled es = [HObject 1; HFunction 2]
  /\ handlers s' = [HObject 3]
  /\ settled es ++ handlers s' = handlers Sample.up ++ written inputs.
Proof.
  cbn zeta.
  destruct (run Sample.up _) as [[s' es] out] eqn:Hrun.
  assert (out = Returned) as -> by (vm_compute in Hrun; congruence).
  split; [reflexivity|].
  split; [vm_compute in Hrun; injection Hrun as <- <-; reflexivity|].
  split; [vm_compute in Hrun; injection Hrun as <- <-; reflexivity|].
  exact (handlers_are_conserved _ _ _ _ Hrun).
Defined.

Section Timers.
Context {RD : ReaderOps}.

Lemma loss_flags (s : Connection) (reason : jsstring) :
  ended s = false -> reconnecting s = false ->
  let '(s', es, out) := _connectionLost s reason in
  ended s' = false /\ reconnecting s' = true /\ retryDelay s' = retryDelay s
  /\ retryTimer s' = match out with
                      | Returned => true
                      | _ => retryTimer s
                      end
  /\ Forall (fun e => forall ms, e = SetTimeout ms -> ms = retryDelay s) es.
Proof.
  intros He Hr. rewrite (TransportFacts.loss_signal_live s reason He Hr).
  destruct (forallb is_object (handlers s)); cbn; rewrite ?He; repeat split.
  - apply Forall_app. split.
    + apply Forall_forall. intros e Hin ms ->.
      apply list_elem_of_In, in_map_iff in Hin as ([o|f] & Habs & _); discriminate.
    + repeat constructor; intros ms Heq; try discriminate.
      injection Heq as <-. reflexivity.
  - apply Forall_forall. intros e Hin ms ->.
    apply list_elem_of_In, in_map_iff in Hin as ([o|f] & Habs & _); discriminate.
Qed.

Lemma step_delay (s : Connection) (i : input) :
  let '(s', es, _) := step s i in
  retryDelay s' = retryDelay s
  /\ Forall (fun e => forall ms, e = SetTimeout ms -> ms = retryDelay s) es.
Proof.
  assert (forall reason,
            let '(s', es, _) := _connectionLost s reason in
            retryDelay s' = retryDelay s
            /\ Forall (fun e => forall ms, e = SetTimeout ms -> ms = retryDelay s) es)
    as Hlost.
  { intros reason. destruct (ended s || reconnecting s) eqn:Hs.
    - rewrite (TransportFacts.loss_signal_ignored s reason Hs). split; constructor.
    - apply orb_false_elim in Hs as [He Hr].
      pose proof (loss_flags s reason He Hr) as Hf.
      destruct (_connectionLost s reason) as [[s' es] out].
      destruct Hf as (_ & _ & Hd & _ & Hes). split; assumption. }
  destruct i as [cmd pack h| | | | |msg|data| | | | |]; cbn [step].
  9-12: (split; [reflexivity|constructor]).
  - unfold write. split; [reflexivity|].
    apply Forall_forall. intros e Hin ms ->. apply list_elem_of_In in Hin.
    assert (settled_like : forall pack command,
              ~ In (SetTimeout ms) (write_loop pack command)).
    { clear. induction pack as [|[b|v] pack IH]; intros command; cbn [write_loop].
      - unfold flush. destruct (nonempty command); cbn; intuition discriminate.
      - intros Hin. apply in_app_or in Hin as [Hin|Hin].
        + unfold flush in Hin. destruct (nonempty command); cbn in Hin;
            intuition discriminate.
        + apply in_app_or in Hin as [Hin|Hin]; [cbn in Hin; intuition discriminate|].
          exact (IH _ Hin).
      - apply IH. }
    exfalso. exact (settled_like _ _ Hin).
  - unfold end_. destruct (ended s); cbn; split; try reflexivity;
      repeat constructor; intros ms Heq; discriminate.
  - unfold on_connect. split; [reflexivity|].
    repeat constructor; intros ms Heq; discriminate.
  - apply Hlost.
  - apply Hlost.
  - unfold on_error. specialize (Hlost (lit "error")).
    destruct (clientErrorListeners s); [split; [reflexivity|constructor]|].
    destruct (_connectionLost s (lit "error")) as [[s' es] out].
    destruct Hlost as [Hd Hes]. split; [exact Hd|].
    constructor; [intros ms Heq; discriminate|exact Hes].
  - unfold on_data.
    destruct (reader_get (reader_feed (reader_ s) data)) as [[|r|m] rd];
      cbn [handlers set_reader errorListeners].
    + split; [reflexivity|constructor].
    + destruct (handlers s) as [|h rest]; [split; [reflexivity|constructor]|].
      destruct r, h; split; try reflexivity;
        repeat constructor; intros ms Heq; discriminate.
    + destruct (errorListeners s); split; try reflexivity;
        repeat constructor; intros ms Heq; discriminate.
  - unfold on_timer. destruct (retryTimer s); split; try reflexivity;
      repeat constructor; intros ms Heq; discriminate.
Qed.

Lemma run_delay (inputs : list input) :
  forall s : Connection,
    let '(s', es, _) := run s inputs in
    retryDelay s' = retryDelay s
    /\ Forall (fun e => forall ms, e = SetTimeout ms -> ms = retryDelay s) es.
Proof.
  induction inputs as [|i inputs IH]; intros s; cbn [run].
  - split; [reflexivity|constructor].
  - pose proof (step_delay s i) as Hstep.
    destruct (step s i) as [[s1 e1] [| |]]; try exact Hstep.
    destruct Hstep as [Hd1 He1].
    specialize (IH s1). destruct (run s1 inputs) as [[s2 e2] o2].
    destruct IH as [Hd2 He2]. split; [congruence|].
    apply Forall_app. split; [exact He1|].
    rewrite <- Hd1. exact He2.
Qed.

(** X15: whatever happens to a connection, every reconnect timer it arms
    has the delay it was configured with, 2000 when the option is missing or
    zero: a lost connection is never retried without a pause. *)
Theorem timers_use_the_configured_delay
    (client_listeners : nat) (h : Host) (options : ServerConnectionOptions)
    (inputs : list input) :
  let '(s, es, _) := run (fst (new client_listeners h options)) inputs in
  configured_delay options <> 0
  /\ retryDelay s = configured_delay options
  /\ Forall (fun e => forall ms, e = SetTimeout ms -> ms = configured_delay options) es.
Proof.
  pose proof (run_delay inputs (fst (new client_listeners h options))) as Hrun.
  destruct (run (fst (new client_listeners h options)) inputs) as [[s es] out].
  destruct Hrun as [Hd Hes].
  assert (retryDelay (fst (new client_listeners h options)) = configured_delay options)
    as Hnew by reflexivity.
  rewrite Hnew in Hd, Hes. split; [|split; assumption].
  unfold configured_delay. destruct (opt_retryDelay options) as [[|p]|]; discriminate.
Qed.

End Timers.

Section StateMachine.
Context {RD : ReaderOps}.

Lemma step_timer_implies (s : Connection) (i : input) :
  (retryTimer s = true -> reconnecting s = true /\ ended s = false) ->
  let s' := fst (fst (step s i)) in
  retryTimer s' = true -> reconnecting s' = true /\ ended s' = false.
Proof.
  intros Hinv.
  assert (forall reason,
            let s' := fst (fst (_connectionLost s reason)) in
            retryTimer s' = true -> reconnecting s' = true /\ ended s' = false)
    as Hlost.
  { intros reason. destruct (ended s || reconnecting s) eqn:Hs.
    - rewrite (TransportFacts.loss_signal_ignored s reason Hs). exact Hinv.
    - apply orb_false_elim in Hs as [He Hr].
      pose proof (loss_flags s reason He Hr) as Hf.
      destruct (_connectionLost s reason) as [[s' es] out].
      destruct Hf as (He' & Hr' & _). cbn [fst]. intros _. split; assumption. }
  destruct i as [cmd pack h| | | | |msg|data| | | | |]; cbn [step].
  9-12: exact Hinv.
  - exact Hinv.
  - unfold end_. destruct (ended s) eqn:He; [cbn [fst]; rewrite He; exact Hinv|].
    cbn. discriminate.
  - exact Hinv.
  - apply Hlost.
  - apply Hlost.
  - unfold on_error. specialize (Hlost (lit "error")).
    destruct (clientErrorListeners s); [exact Hinv|].
    destruct (_connectionLost s (lit "error")) as [[s' es] out]. exact Hlost.
  - unfold on_data.
    destruct (reader_get (reader_feed (reader_ s) data)) as [[|r|m] rd];
      cbn [handlers set_reader errorListeners]; try exact Hinv.
    + destruct (handlers s) as [|h rest]; [exact Hinv|].
      destruct r, h; exact Hinv.
    + destruct (errorListeners s); exact Hinv.
  - unfold on_timer. destruct (retryTimer s) eqn:Ht; [cbn; discriminate|].
    cbn [fst]. rewrite Ht. discriminate.
Qed.

Lemma step_timer_matches (s s' : Connection) (i : input) (es : list effect) :
  retryTimer s = reconnecting s && negb (ended s) ->
  step s i = (s', es, Returned) ->
  retryTimer s' = reconnecting s' && negb (ended s').
Proof.
  intros Hinv.
  assert (forall reason s1 e1,
            _connectionLost s reason = (s1, e1, Returned) ->
            retryTimer s1 = reconnecting s1 && negb (ended s1)) as Hlost.
  { intros reason s1 e1. destruct (ended s || reconnecting s) eqn:Hs.
    - rewrite (TransportFacts.loss_signal_ignored s reason Hs).
      intros Heq. injection Heq as <- _. exact Hinv.
    - apply orb_false_elim in Hs as [He Hr].
      pose proof (loss_flags s reason He Hr) as Hf.
      destruct (_connectionLost s reason) as [[s2 e2] out].
      destruct Hf as (He' & Hr' & _ & Ht & _).
      intros Heq. injection Heq as <- _ ->. rewrite Ht, He', Hr'. reflexivity. }
  destruct i as [cmd pack h| | | | |msg|data| | | | |]; cbn [step].
  9-12: (intros Heq; injection Heq as <- _; exact Hinv).
  - unfold write. intros Heq. injection Heq as <- _. exact Hinv.
  - unfold end_. destruct (ended s) eqn:He; intros Heq; injection Heq as <- _;
      [rewrite He; exact Hinv|]. cbn. rewrite andb_false_r. reflexivity.
  - unfold on_connect. intros Heq. injection Heq as <- _. exact Hinv.
  - apply Hlost.
  - apply Hlost.
  - unfold on_error. destruct (clientErrorListeners s); [discriminate|].
    destruct (_connectionLost s (lit "error")) as [[s1 e1] o1] eqn:Hl.
    intros Heq. injection Heq as <- _ ->. eapply Hlost. exact Hl.
  - unfold on_data.
    destruct (reader_get (reader_feed (reader_ s) data)) as [[|r|m] rd];
      cbn [handlers set_reader errorListeners].
    + intros Heq. injection Heq as <- _. exact Hinv.
    + destruct (handlers s) as [|h rest]; [discriminate|].
      destruct r, h; intros Heq; try discriminate; injection Heq as <- _; exact Hinv.
    + destruct (errorListeners s); [discriminate|].
      intros Heq. injection Heq as <- _. exact Hinv.
  - unfold on_timer. destruct (retryTimer s) eqn:Ht; intros Heq; injection Heq as <- _;
      [reflexivity|rewrite Ht; exact Hinv].
Qed.

Lemma matches_implies (s : Connection) :
  retryTimer s = reconnecting s && negb (ended s) ->
  retryTimer s = true -> reconnecting s = true /\ ended s = false.
Proof.
  intros -> Ht. apply andb_prop in Ht as [Hr He].
  split; [exact Hr|]. destruct (ended s); [discriminate|reflexivity].
Qed.

Lemma run_timer (inputs : list input) :
  forall s : Connection,
    retryTimer s = reconnecting s && negb (ended s) ->
    let '(s', _, out) := run s inputs in
    (retryTimer s' = true -> reconnecting s' = true /\ ended s' = false)
    /\ (out = Returned -> retryTimer s' = reconnecting s' && negb (ended s')).
Proof.
  induction inputs as [|i inputs IH]; intros s Hinv; cbn [run].
  - split; [apply matches_implies, Hinv|intros _; exact Hinv].
  - pose proof (step_timer_implies s i (matches_implies s Hinv)) as Himp.
    pose proof (step_timer_matches s) as Hmatch.
    destruct (step s i) as [[s1 e1] [| |]] eqn:Hstep; cbn [fst] in Himp.
    + specialize (IH s1 (Hmatch s1 i e1 Hinv Hstep)).
      destruct (run s1 inputs) as [[s2 e2] o2]. exact IH.
    + split; [exact Himp|discriminate].
    + split; [exact Himp|discriminate].
Qed.

(** X16: in every state a new connection can reach, an armed reconnect
    timer means that the connection is reconnecting and was not ended; and as
    long as no exception ended the run, a connection that is reconnecting and
    not ended has its timer armed: it will try again. *)
Theorem timer_is_armed_while_reconnecting
    (client_listeners : nat) (h : Host) (options : ServerConnectionOptions)
    (inputs : list input) :
  let '(s, _, out) := run (fst (new client_listeners h options)) inputs in
  (retryTimer s = true -> reconnecting s = true /\ ended s = false)
  /\ (out = Returned -> retryTimer s = reconnecting s && negb (ended s)).
Proof. apply run_timer. reflexivity. Qed.

Lemma write_loop_no_reconnect (pack : list item) :
  forall command, forallb (fun e => negb (is_reconnect e)) (write_loop pack command) = true.
Proof.
  induction pack as [|[b|v] pack IH]; intros command; cbn [write_loop].
  - unfold flush. destruct (nonempty command); reflexivity.
  - rewrite !forallb_app, IH. unfold flush. destruct (nonempty command); reflexivity.
  - apply IH.
Qed.

Lemma step_after_end (s : Connection) (i : input) :
  ended s = true -> retryTimer s = false ->
  let '(s', es, _) := step s i in
  ended s' = true /\ retryTimer s' = false
  /\ forallb (fun e => negb (is_reconnect e)) es = true.
Proof.
  intros He Ht.
  assert (forall reason, _connectionLost s reason = (s, [], Returned)) as Hlost
    by (intros reason; apply TransportFacts.loss_signal_ignored; rewrite He; reflexivity).
  destruct i as [cmd pack h| | | | |msg|data| | | | |]; cbn [step].
  9-12: (repeat split; assumption).
  - unfold write. cbn. repeat split; try assumption. apply write_loop_no_reconnect.
  - unfold end_. rewrite He. repeat split; assumption.
  - unfold on_connect. cbn. repeat split; assumption.
  - unfold on_close. rewrite Hlost. repeat split; assumption.
  - unfold on_end. rewrite Hlost. repeat split; assumption.
  - unfold on_error. destruct (clientErrorListeners s); [repeat split; assumption|].
    rewrite Hlost. repeat split; assumption.
  - unfold on_data.
    destruct (reader_get (reader_feed (reader_ s) data)) as [[|r|m] rd];
      cbn [handlers set_reader errorListeners].
    + repeat split; assumption.
    + destruct (handlers s) as [|h0 rest]; [repeat split; assumption|].
      destruct r, h0; repeat split; assumption.
    + destruct (errorListeners s); repeat split; assumption.
  - unfold on_timer. rewrite Ht. repeat split; assumption.
Qed.

Lemma run_after_end (inputs : list input) :
  forall s : Connection,
    ended s = true -> retryTimer s = false ->
    let '(s', es, _) := run s inputs in
    ended s' = true /\ retryTimer s' = false
    /\ forallb (fun e => negb (is_reconnect e)) es = true.
Proof.
  induction inputs as [|i inputs IH]; intros s He Ht; cbn [run].
  - repeat split; assumption.
  - pose proof (step_after_end s i He Ht) as Hstep.
    destruct (step s i) as [[s1 e1] [| |]]; try exact Hstep.
    destruct Hstep as (He1 & Ht1 & Hes1).
    specialize (IH s1 He1 Ht1). destruct (run s1 inputs) as [[s2 e2] o2].
    destruct IH as (He2 & Ht2 & Hes2).
    repeat split; try assumption. rewrite forallb_app, Hes1, Hes2. reflexivity.
Qed.

(** X17: [end()] is final.  Whatever a connection went through before, and
    whatever comes after (lost sockets, errors, data, writes, listeners, a
    timer that was pending), it stays ended, arms no timer and makes no connection
    attempt. *)
Theorem end_is_final
    (client_listeners : nat) (h : Host) (options : ServerConnectionOptions)
    (before after : list input) :
  let '(s1, _, _) := run (fst (new client_listeners h options)) before in
  let '(s2, es, _) := run (fst (end_ s1)) after in
  ended s2 = true /\ retryTimer s2 = false
  /\ forallb (fun e => negb (is_reconnect e)) es = true.
Proof.
  pose proof (run_timer before (fst (new client_listeners h options)) eq_refl) as Hinv.
  destruct (run (fst (new client_listeners h options)) before) as [[s1 e1] o1].
  destruct Hinv as [Himp _].
  apply run_after_end.
  - unfold end_. destruct (ended s1) eqn:He; [exact He|reflexivity].
  - unfold end_. destruct (ended s1) eqn:He; [|reflexivity].
    cbn [fst]. destruct (retryTimer s1) eqn:Ht; [|reflexivity].
    destruct (Himp eq_refl) as [_ Habs]. discriminate Habs.
Qed.

End StateMachine.

Section Cycle.
Context {RD : ReaderOps}.

(** X18: a live connection that loses its socket rejects what is pending
    and arms its timer; when the timer fires it connects to the same port and
    host, and [reconnecting] is cleared at once, so that, the client having a
    listener for [error], the error of a failed attempt is reported there and
    arms the timer again with the same delay: the connection is back in the
    state the first loss left. *)
Theorem failed_attempt_starts_another_cycle (s : Connection) (msg : jsstring) :
  ended s = false -> reconnecting s = false ->
  forallb is_object (handlers s) = true ->
  clientErrorListeners s <> O ->
  let lost := set_retryTimer true (set_handlers [] (set_flags false false true s)) in
  run s [SocketClose; TimerFires; SocketError msg]
  = (lost,
     map (notify (lost_message s)) (handlers s)
     ++ [Emit EvReconnect; Emit (EvDebug (lit "close")); SetTimeout (retryDelay s);
         StreamConnect (host_port (host s)) (host_host (host s));
         ClientEmitError (lit "redis-nextra connection to " ++ host_string (host s)
                          ++ lit " failed: " ++ msg);
         Emit EvReconnect; Emit (EvDebug (lit "error")); SetTimeout (retryDelay s)],
     Returned).
Proof.
  intros He Hr Hall Hlisten. cbn [run step]. unfold on_close.
  rewrite (TransportFacts.loss_signal_live s _ He Hr), Hall, He.
  unfold on_timer. cbn [retryTimer set_retryTimer].
  unfold on_error.
  cbn [clientErrorListeners set_handlers set_retryTimer set_flags].
  destruct (clientErrorListeners s) as [|n] eqn:Hn; [contradiction|].
  rewrite TransportFacts.loss_signal_live by reflexivity.
  cbn [handlers set_handlers set_retryTimer set_flags forallb ended reconnecting
       connected retryDelay host reader_ retryTimer map app].
  rewrite <- !app_assoc. reflexivity.
Qed.

(** X19: the [data] listener throws exactly when a complete reply arrives
    and either nothing is pending, or the reply is an error and the oldest
    handler is a function.  In the second case the function has been taken
    off the queue and is never called. *)
Theorem data_listener_throws_iff (s : Connection) (data : list byte) :
  let '(got, rd) := reader_get (reader_feed (reader_ s) data) in
  (snd (on_data s data) = Threw_TypeError
   <-> exists r, got = GetReply r
                 /\ (handlers s = []
                     \/ exists m f rest,
                          r = RErr m /\ handlers s = HFunction f :: rest))
  /\ (forall m f rest,
        got = GetReply (RErr m) -> handlers s = HFunction f :: rest ->
        on_data s data = (set_handlers rest (set_reader rd s), [], Threw_TypeError)).
Proof.
  unfold on_data.
  destruct (reader_get (reader_feed (reader_ s) data)) as [[|r|m] rd];
    cbn [handlers set_reader snd errorListeners].
  - split; [|discriminate]. split; [discriminate|].
    intros (r & Habs & _). discriminate.
  - split.
    + destruct (handlers s) as [|h rest] eqn:Hhs.
      * split; [|reflexivity]. intros _. exists r. split; [reflexivity|left; reflexivity].
      * destruct r, h; cbn [snd]; split; try discriminate;
          try (intros (r' & Hr' & [Habs|(m' & f & rest' & Hm & Hf)]);
               [discriminate Habs|injection Hr' as <-; discriminate]);
          try reflexivity.
        intros _. exists (RErr message). split; [reflexivity|]. right.
        exists message, id, rest. split; reflexivity.
    + intros m f rest Hr Hhs. injection Hr as ->. rewrite Hhs. reflexivity.
  - split; [|discriminate]. destruct (errorListeners s); cbn [snd].
    all: split; [discriminate|]; intros (r & Habs & _); discriminate.
Qed.

End Cycle.

Lemma failed_attempt_starts_another_cycle_witness :
  ended Sample.get_a_b = false /\
  reconnecting Sample.get_a_b = false /\
  forallb is_object (handlers Sample.get_a_b) = true /\
  clientErrorListeners Sample.get_a_b <> O /\
  let '(s', es, out) :=
    run Sample.get_a_b [SocketClose; TimerFires; SocketError (lit "ECONNREFUSED")] in
  out = Returned /\ retryTimer s' = true /\ timers_armed es = 2%nat
  /\ settled es = [HObject 1; HObject 2].
Proof.
  do 3 (split; [reflexivity|]).
  split; [discriminate|].
  rewrite (failed_attempt_starts_another_cycle Sample.get_a_b (lit "ECONNREFUSED")
             eq_refl eq_refl eq_refl ltac:(discriminate)).
  repeat split.
Defined.

Section WriteThenRead.
Context {RD : ReaderOps}.

Lemma run_app (a : list input) :
  forall (s : Connection) (b : list input),
    run s (a ++ b)
    = match run s a with
      | (s1, e1, Returned) =>
          let '(s2, e2, out) := run s1 b in (s2, e1 ++ e2, out)
      | r => r
      end.
Proof.
  induction a as [|i a IH]; intros s b; cbn [app run].
  - destruct (run s b) as [[s2 e2] out]. reflexivity.
  - destruct (step s i) as [[s1 e1] [| |]]; try reflexivity.
    rewrite IH. destruct (run s1 a) as [[s2 e2] [| |]]; try reflexivity.
    destruct (run s2 b) as [[s3 e3] out]. rewrite app_assoc. reflexivity.
Qed.

Lemma run_writes (ws : list (jsstring * list item * nat)) :
  forall s : Connection,
    run s (map (fun w => DoWrite (fst (fst w)) (snd (fst w)) (HObject (snd w))) ws)
    = (set_handlers (handlers s ++ map (fun w => HObject (snd w)) ws) s,
       flat_map (fun w => write_loop (snd (fst w))
                            (header (fst (fst w)) (length (snd (fst w))))) ws,
       Returned).
Proof.
  induction ws as [|[[cmd pack] o] ws IH]; intros s; cbn [map run flat_map].
  - rewrite app_nil_r. destruct s; reflexivity.
  - cbn [step fst snd]. unfold write. rewrite IH.
    cbn [handlers set_handlers]. rewrite <- app_assoc. reflexivity.
Qed.

Lemma run_data (chunks : list (list byte)) :
  forall s : Connection, run s (map SocketData chunks) = feed_all s chunks.
Proof.
  induction chunks as [|d chunks IH]; intros s; cbn [map run feed_all step];
    [reflexivity|].
  destruct (on_data s d) as [[s1 e1] [| |]]; try reflexivity.
  rewrite IH. reflexivity.
Qed.

(** X20: commands written on a connection with nothing pending, followed by
    chunks that each complete one reply, settle the handles in the order of
    the writes, each with the reply of its rank (an error reply rejecting,
    any other resolving), and leave nothing pending. *)
Theorem writes_then_replies_settle_in_order
    (s : Connection) (ws : list (jsstring * list item * nat))
    (chunks : list (list byte)) (rs : list reply) :
  handlers s = [] ->
  one_reply_each (reader_ s) chunks rs ->
  length ws = length rs ->
  exists s',
    run s (map (fun w => DoWrite (fst (fst w)) (snd (fst w)) (HObject (snd w))) ws
           ++ map SocketData chunks)
    = (s',
       flat_map (fun w => write_loop (snd (fst w))
                            (header (fst (fst w)) (length (snd (fst w))))) ws
       ++ zip_with settle (map snd ws) rs,
       Returned)
    /\ handlers s' = [].
Proof.
  intros Hempty Hreplies Hlen.
  rewrite run_app, run_writes, run_data, Hempty. cbn [app].
  destruct (TransportFacts.one_reply_per_chunk_settles_in_order chunks rs
              (set_handlers (map (fun w => HObject (snd w)) ws) s)
              (map snd ws) []) as (s' & Hfeed & Hdone).
  - exact Hreplies.
  - cbn [handlers set_handlers]. rewrite map_map, app_nil_r. reflexivity.
  - rewrite length_map. exact Hlen.
  - exists s'. rewrite Hfeed. split; [reflexivity|exact Hdone].
Qed.

End WriteThenRead.

Lemma writes_then_replies_settle_in_order_witness :
  handlers Sample.up = [] /\
  exists s',
    run Sample.up
      [DoWrite (lit "GET") [IValue (VStr (lit "a"))] (HObject 1);
       DoWrite (lit "INCR") [IValue (VStr (lit "b"))] (HObject 2);
       SocketData (lit "$1" ++ crlf ++ lit "A" ++ crlf);
       SocketData (lit "-ERR no" ++ crlf)]
    = (s',
       [StreamWrite (WString (lit "*2" ++ crlf ++ lit "$3" ++ crlf ++ lit "GET" ++ crlf
                              ++ lit "$1" ++ crlf ++ lit "a" ++ crlf));
        StreamWrite (WString (lit "*2" ++ crlf ++ lit "$4" ++ crlf ++ lit "INCR" ++ crlf
                              ++ lit "$1" ++ crlf ++ lit "b" ++ crlf));
        HandlerResolve 1 (RStr (lit "A"));
        HandlerReject 2 (lit "ERR no")],
       Returned)
    /\ handlers s' = [].
Proof.
  split; [reflexivity|].
  apply (writes_then_replies_settle_in_order Sample.up
           [(lit "GET", [IValue (VStr (lit "a"))], 1%nat);
            (lit "INCR", [IValue (VStr (lit "b"))], 2%nat)]
           [lit "$1" ++ crlf ++ lit "A" ++ crlf; lit "-ERR no" ++ crlf]
           [RStr (lit "A"); RErr (lit "ERR no")]).
  - reflexivity.
  - cbn [one_reply_each]. eexists. split; [reflexivity|].
    eexists. split; [reflexivity|exact I].
  - reflexivity.
Defined.

End TransportMore.
